(** * Telegram market-report bot (bot.py): a shallow embedding and its properties

    The embedding follows [bot.py] function by function.

    - Python [str] values are sequences of Unicode code points ([len] counts
      code points), so a text is a [list N]; literals are written as UTF-8
      string constants and decoded by [u].
    - Python [float] values are idealised as exact rationals ([Q]): the
      rounding, the overflow and the infinities of binary64 are not
      represented.  A NaN cell of a pandas column is [None] in an
      [option Q] column.
    - Python [int] values are [Z].
    - Printing, the data providers and the HTTP transport are events of a log
      that every effectful function threads; the providers are oracles that
      answer from the log so far, hence may answer differently on each call.
    - An exception is a value [Raise e] of the result type [res]. *)

From Stdlib Require Import ZArith NArith QArith Qabs List Bool Lia String Ascii.
From Stdlib Require Import DecimalString Lqa Qround.
Import ListNotations.

(* ================================================================= *)
(** ** Python strings *)

Module PyStr.

(** A character is a Unicode code point. *)
Definition char := N.
Definition str := list char.

Definition NL : char := 10%N.

(** UTF-8 decoding of a literal: [need] continuation bytes are still
    expected and [acc] holds the bits read so far. *)
Fixpoint utf8_go (bs : list N) (need : nat) (acc : N) : str :=
  match bs with
  | [] => []
  | b :: bs' =>
      match need with
      | O =>
          if (b <? 128)%N then b :: utf8_go bs' 0 0%N
          else if (b <? 224)%N then utf8_go bs' 1 (b - 192)%N
          else if (b <? 240)%N then utf8_go bs' 2 (b - 224)%N
          else utf8_go bs' 3 (b - 240)%N
      | S O => (acc * 64 + (b - 128))%N :: utf8_go bs' 0 0%N
      | S n => utf8_go bs' n (acc * 64 + (b - 128))%N
      end
  end.

Definition u (s : string) : str :=
  utf8_go (map N_of_ascii (list_ascii_of_string s)) 0 0%N.

Definition len (s : str) : nat := List.length s.

(** [sep.join(parts)] *)
Fixpoint join (sep : str) (parts : list str) : str :=
  match parts with
  | [] => []
  | [p] => p
  | p :: rest => p ++ sep ++ join sep rest
  end.

(** [s.rfind(c, 0, stop)] for a one-character needle [c]: the highest index
    [i < min(stop, len(s))] with [s[i] = c], and [-1] when there is none. *)
Fixpoint rfind_go (c : char) (s : str) (i : nat) (n : nat) (best : Z) : Z :=
  match n, s with
  | S n', x :: s' =>
      rfind_go c s' (S i) n' (if (x =? c)%N then Z.of_nat i else best)
  | _, _ => best
  end.

Definition rfind (s : str) (c : char) (stop : nat) : Z :=
  rfind_go c s 0 stop (-1).

(** [s[:k]] and [s[k:]] for [0 <= k]. *)
Definition slice_to (s : str) (k : Z) : str := firstn (Z.to_nat k) s.
Definition slice_from (s : str) (k : Z) : str := skipn (Z.to_nat k) s.

(** Truthiness of a string: non-empty. *)
Definition truthy (s : str) : bool :=
  match s with [] => false | _ :: _ => true end.

Definition str_eq_dec : forall a b : str, {a = b} + {a <> b} :=
  list_eq_dec N.eq_dec.

End PyStr.
Import PyStr.

(* ================================================================= *)
(** ** Report transport: [chunk_text] *)

Module Transport.

(** The [while len(cur) > limit] loop of [chunk_text].  The Python loop has
    no bound; [fuel] bounds the number of iterations of the model and
    [None] means that the bound was reached with the loop still running.
    The limit is a natural number: both calls in [bot.py] pass 3500. *)
Fixpoint chunk_loop (fuel : nat) (limit : nat) (chunks : list str) (cur : str)
  : option (list str * str) :=
  if (limit <? len cur)%nat then
    match fuel with
    | O => None
    | S fuel' =>
        let cut := rfind cur NL limit in
        let cut := if (cut =? -1)%Z then Z.of_nat limit else cut in
        chunk_loop fuel' limit (chunks ++ [slice_to cur cut]) (slice_from cur cut)
    end
  else Some (chunks, cur).

(** [chunk_text(s, limit)]; [s = None] is Python's [None], turned into the
    empty text by [s or ""]. *)
Definition chunk_text (fuel : nat) (s : option str) (limit : nat)
  : option (list str) :=
  let s := match s with Some t => if truthy t then t else [] | None => [] end in
  if (len s <=? limit)%nat then Some [s]
  else
    match chunk_loop fuel limit [] s with
    | None => None
    | Some (chunks, cur) =>
        Some (if truthy cur then chunks ++ [cur] else chunks)
    end.

(** One iteration of the loop as a function on the loop state. *)
Definition chunk_step (limit : nat) (st : list str * str) : list str * str :=
  let '(chunks, cur) := st in
  let cut := rfind cur NL limit in
  let cut := if (cut =? -1)%Z then Z.of_nat limit else cut in
  (chunks ++ [slice_to cur cut], slice_from cur cut).

(** A remaining text on which the loop body changes nothing but the list
    of chunks: it is longer than the limit and its last newline among the
    first [limit] characters is its first character. *)
Definition stuck (limit : nat) (cur : str) : Prop :=
  (limit < len cur)%nat /\ rfind cur NL limit = 0%Z.

End Transport.
Import Transport.

(* ================================================================= *)
(** ** Exceptions *)

(** A Python exception, with the text that [str(e)] gives. *)
Inductive exn : Type := Exn (msg : str).

Definition exn_str (e : exn) : str := match e with Exn m => m end.

(** The outcome of code that can raise. *)
Inductive res (A : Type) : Type :=
| Ok (a : A)
| Raise (e : exn).
Arguments Ok {A} a.
Arguments Raise {A} e.

Definition res_bind {A B} (c : res A) (k : A -> res B) : res B :=
  match c with
  | Ok a => k a
  | Raise e => Raise e
  end.

Declare Scope res_scope.
Delimit Scope res_scope with res.
Notation "x <- c ;; k" := (res_bind c (fun x => k))
  (at level 61, c at next level, right associativity) : res_scope.

Definition IndexError : exn := Exn (u "single positional indexer is out-of-bounds").
Definition ValueError_nan : exn := Exn (u "cannot convert float NaN to integer").
Definition TypeError_format : exn :=
  Exn (u "unsupported format string passed to NoneType.__format__").

(* ================================================================= *)
(** ** The pandas operations used by the indicator code *)

Module Pandas.
Local Open Scope Q_scope.

(** A float column: [None] is NaN. *)
Definition column := list (option Q).

(** [col.dropna()] *)
Fixpoint dropna (col : column) : list Q :=
  match col with
  | [] => []
  | Some v :: t => v :: dropna t
  | None :: t => dropna t
  end.

(** [xs.iloc[i]], negative [i] counting from the end; out of range raises
    [IndexError]. *)
Definition iloc {A} (xs : list A) (i : Z) : res A :=
  let n := Z.of_nat (List.length xs) in
  let j := if (i <? 0)%Z then (i + n)%Z else i in
  if ((j <? 0) || (n <=? j))%Z then Raise IndexError
  else match nth_error xs (Z.to_nat j) with
       | Some x => Ok x
       | None => Raise IndexError
       end.

(** [xs.tail(n)]: the last [n] entries (all of them when there are fewer). *)
Definition tail {A} (n : nat) (xs : list A) : list A :=
  skipn (List.length xs - n) xs.

Definition sum (xs : list Q) : Q := fold_left Qplus xs 0.

(** [xs.mean()] of a NaN-free series; NaN ([None]) for the empty series. *)
Definition mean (xs : list Q) : option Q :=
  match xs with
  | [] => None
  | _ :: _ => Some (sum xs / inject_Z (Z.of_nat (List.length xs)))
  end.

(** [col.mean()] skips NaN cells. *)
Definition nanmean (col : column) : option Q := mean (dropna col).

(** [xs.rolling(w).mean()]: entry [i] is the mean of the window of the [w]
    entries ending at [i], NaN while the window is not full. *)
Definition rolling_mean (w : nat) (xs : list Q) : column :=
  map (fun i => if (w <=? S i)%nat then mean (tail w (firstn (S i) xs)) else None)
      (seq 0 (List.length xs)).

(** [xs.diff().dropna()]: the successive differences. *)
Fixpoint diff (xs : list Q) : list Q :=
  match xs with
  | a :: (b :: _) as t => (b - a) :: diff t
  | _ => []
  end.

(** [x.clip(lower=lo)] and [x.clip(upper=hi)] on one entry. *)
Definition clip_lower (lo x : Q) : Q := if Qle_bool lo x then x else lo.
Definition clip_upper (hi x : Q) : Q := if Qle_bool x hi then x else hi.

(** [xs.ewm(alpha=alpha, adjust=False).mean()]:
    [y0 = x0] and [y_t = (1 - alpha) * y_(t-1) + alpha * x_t]. *)
Fixpoint ewm_from (alpha prev : Q) (xs : list Q) : list Q :=
  match xs with
  | [] => []
  | x :: t =>
      let y := (1 - alpha) * prev + alpha * x in
      y :: ewm_from alpha y t
  end.

Definition ewm_mean (alpha : Q) (xs : list Q) : list Q :=
  match xs with
  | [] => []
  | x :: t => x :: ewm_from alpha x t
  end.

(** [int(x)] of a float: truncation toward zero; NaN raises [ValueError]. *)
Definition trunc (x : Q) : Z := Z.quot (Qnum x) (Zpos (Qden x)).

Definition py_int (x : option Q) : res Z :=
  match x with
  | Some v => Ok (trunc v)
  | None => Raise ValueError_nan
  end.

(** [x != 0] on floats. *)
Definition nonzero (x : Q) : bool := negb (Qeq_bool x 0).

End Pandas.
Import Pandas.

(* ================================================================= *)
(** ** Indicator engine: the body of [yf_get_symbol] *)

Module Indicators.
Local Open Scope Q_scope.
Local Open Scope res_scope.

(** The frame that [tk.history] returns: its [Close] column and, when the
    frame has one, its [Volume] column.  The rows of the frame are the
    entries of [Close]. *)
Record DataFrame : Type := {
  Close : column;
  Volume : option column
}.

(** [hist.empty] *)
Definition df_empty (hist : DataFrame) : bool :=
  match Close hist with [] => true | _ :: _ => false end.

(** The dictionary that [yf_get_symbol] returns.  An optional field is
    Python's [None] when [None]. *)
Record Info : Type := {
  price : Q;
  pct : Q;
  vol : option Z;
  avg5_price : option Q;
  avg5_vol : option Z;
  sma20 : option Q;
  sma50 : option Q;
  rsi14 : option Q
}.

(** [(last/prev - 1) * 100 if prev != 0 else 0.0] *)
Definition pct_change (last prev : Q) : Q :=
  if nonzero prev then (last / prev - 1) * 100 else 0.

(** Lines 118-129: the 14-period RSI of the NaN-free closes. *)
Definition rsi_of (close : list Q) : res (option Q) :=
  if (15 <=? List.length close)%nat then
    let delta := diff close in
    let ups := map (clip_lower 0) delta in
    let downs := map (fun d => - clip_upper 0 d) delta in
    let roll_up := ewm_mean (1 # 14) ups in
    let roll_down := ewm_mean (1 # 14) downs in
    d <- iloc roll_down (-1) ;;
    if nonzero d then
      up <- iloc roll_up (-1) ;;
      let rs := up / d in
      Ok (Some (100 - 100 / (1 + rs)))
    else Ok (Some 100)
  else Ok None.

(** Lines 108-130 of [yf_get_symbol], on a frame that is neither [None] nor
    empty.  A [float(...)] of a guarded mean cannot be NaN (lemmas
    [mean_tail_some] and [rolling_mean_last]), so the optional fields hold
    that mean directly. *)
Definition yf_symbol_frame (hist : DataFrame) : res (option Info) :=
  let close := dropna (Close hist) in
  last <- iloc close (-1) ;;
  prev <- (if (2 <=? List.length close)%nat then iloc close (-2) else Ok last) ;;
  let pct := pct_change last prev in
  vol <- match Volume hist with
         | Some v => x <- iloc v (-1) ;; i <- py_int x ;; Ok (Some i)
         | None => Ok None
         end ;;
  let avg5 := if (5 <=? List.length close)%nat then mean (tail 5 close) else None in
  avgvol20 <- match Volume hist with
              | Some v =>
                  if (20 <=? List.length (dropna v))%nat
                  then i <- py_int (nanmean (tail 20 v)) ;; Ok (Some i)
                  else Ok None
              | None => Ok None
              end ;;
  sma20 <- (if (20 <=? List.length close)%nat
            then iloc (rolling_mean 20 close) (-1) else Ok None) ;;
  sma50 <- (if (50 <=? List.length close)%nat
            then iloc (rolling_mean 50 close) (-1) else Ok None) ;;
  rsi <- rsi_of close ;;
  Ok (Some {| price := last; pct := pct; vol := vol; avg5_price := avg5;
              avg5_vol := avgvol20; sma20 := sma20; sma50 := sma50;
              rsi14 := rsi |}).

(** Lines 142-146 of [yf_get_index]. *)
Record IndexInfo : Type := {
  idx_last : Q;
  idx_pct : option Q
}.

Definition yf_index_frame (hist : DataFrame) : res (option IndexInfo) :=
  let close := dropna (Close hist) in
  last <- iloc close (-1) ;;
  prev <- (if (2 <=? List.length close)%nat then iloc close (-2) else Ok last) ;;
  Ok (Some {| idx_last := last; idx_pct := Some (pct_change last prev) |}).

End Indicators.
Import Indicators.

(* ================================================================= *)
(** ** Float and integer formatting *)

(** A format specification [[+][,].<prec>f]. *)
Record FormatSpec : Type := {
  plus : bool;
  comma : bool;
  prec : nat
}.

(** Python's conversions of a float to text, which depend on binary64 and
    are taken as an interface: [float_repr x] is [str(x)] and
    [float_fixed spec x] is [format(x, spec)]. *)
Class FloatFmt : Type := {
  float_repr : Q -> str;
  float_fixed : FormatSpec -> Q -> str
}.

Definition f2 : FormatSpec := {| plus := false; comma := false; prec := 2 |}.
Definition f1 : FormatSpec := {| plus := false; comma := false; prec := 1 |}.
Definition plus_f2 : FormatSpec := {| plus := true; comma := false; prec := 2 |}.
Definition comma_f0 : FormatSpec := {| plus := false; comma := true; prec := 0 |}.
Definition comma_f2 : FormatSpec := {| plus := false; comma := true; prec := 2 |}.

Module Decimal.
(** An instance of [FloatFmt] on exact rationals: fixed-point output
    rounded half to even, and [str(x)] as the shortest exact decimal
    expansion with at least one decimal (17 decimals when there is none). *)

Definition digits_of_N (n : N) : str :=
  map N_of_ascii (list_ascii_of_string (NilZero.string_of_uint (N.to_uint n))).

Definition str_of_Z (z : Z) : str :=
  (if (z <? 0)%Z then u "-" else []) ++ digits_of_N (Z.to_N (Z.abs z)).

Definition round_half_even (x : Q) : Z :=
  let n := Qnum x in
  let d := Zpos (Qden x) in
  let q := (n / d)%Z in
  let r := (n mod d)%Z in
  match (2 * r ?= d)%Z with
  | Lt => q
  | Gt => (q + 1)%Z
  | Eq => if Z.even q then q else (q + 1)%Z
  end.

Fixpoint group3 (rev_digits : str) : str :=
  match rev_digits with
  | a :: b :: c :: ((_ :: _) as rest) => a :: b :: c :: 44%N :: group3 rest
  | _ => rev_digits
  end.

Definition pad_left (n : nat) (s : str) : str :=
  repeat 48%N (n - len s) ++ s.

Definition fixed (spec : FormatSpec) (x : Q) : str :=
  let p := (10 ^ Z.of_nat (prec spec))%Z in
  let n := round_half_even (Qabs x * inject_Z p) in
  let ip := digits_of_N (Z.to_N (n / p)) in
  let fp := pad_left (prec spec) (digits_of_N (Z.to_N (n mod p))) in
  (if Qle_bool 0 x then (if plus spec then u "+" else []) else u "-")
    ++ (if comma spec then rev (group3 (rev ip)) else ip)
    ++ (match prec spec with O => [] | S _ => u "." ++ fp end).

Fixpoint decimals_needed (fuel : nat) (k : nat) (x : Q) : nat :=
  match fuel with
  | O => k
  | S fuel' =>
      if (Qnum (Qred (x * inject_Z (10 ^ Z.of_nat k))) mod
            Zpos (Qden (Qred (x * inject_Z (10 ^ Z.of_nat k)))) =? 0)%Z
      then k else decimals_needed fuel' (S k) x
  end.

Definition repr (x : Q) : str :=
  fixed {| plus := false; comma := false; prec := decimals_needed 16 1 x |} x.

Definition decimal_fmt : FloatFmt :=
  {| float_repr := repr; float_fixed := fixed |}.

End Decimal.

(* ================================================================= *)
(** ** The outside world: events, providers, configuration *)

(** What the program does to the outside, in the order it happens. *)
Inductive Event : Type :=
| Print (text : str)                  (* print(text) *)
| PrintExc                            (* traceback.print_exc() *)
| YfHistory (ticker period : str)     (* yf.Ticker(ticker).history(period=period) *)
| VnIndex (cand : str)                (* vns.stock.<cand>("VNINDEX", "1D", count=60) *)
| VnForeign (symbol : option str)     (* try_vn_foreign(symbol) *)
| HttpPost (url chat_id text : str).  (* requests.post(url, data=payload) *)

Definition Log := list Event.

(** The answer of yfinance to one [history] request. *)
Inductive HistResult : Type :=
| HistRaises (e : exn)        (* network error, unknown symbol, ... *)
| HistNone                    (* [history] returned [None] *)
| HistFrame (hist : DataFrame).

(** What one candidate of the vnstock index lookup does (lines 162-169):
    the attribute is missing; the call or the extraction of the last row
    raises; the call returns [None] or something without [iloc]; or it
    returns a frame, with its last close and, if the frame has a
    [pct_change] column, its last entry. *)
Inductive VnIndexOutcome : Type :=
| VnNoAttr
| VnRaises
| VnNotFrame
| VnFrame (last : Q) (pct_change : option Q).

(** The dictionary of foreign-flow totals that [try_vn_foreign] extracts;
    a missing key and a [None] value both read as [None]. *)
Definition FlowDict := list (str * option Q).

(** The answer of the messaging endpoint to one POST. *)
Inductive PostResult : Type :=
| PostRaises (e : exn)
| PostStatus (status_code : Z) (text : str).

(** Process configuration (lines 15-34), the clock, and the providers.  A
    provider answers from the log of everything done before the call.
    [try_vn_foreign] is the outcome of the function of that name (lines
    58-98), whose probing of the optional vnstock module is not modelled:
    it raises, or returns [None] or a dictionary. *)
Record Env : Type := {
  BOT_TOKEN : str;
  CHAT_ID : str;
  USE_VNSTOCK : bool;
  PCT_ALERT_UP : Q;
  PCT_ALERT_DOWN : Q;
  VOL_SURGE_MULT : Q;
  vns : bool;                                   (* [vns is not None] *)
  now : str;                                    (* datetime.now().strftime(...) *)
  yf_history : Log -> str -> str -> HistResult;
  vn_index : Log -> str -> VnIndexOutcome;
  try_vn_foreign : Log -> option str -> res (option FlowDict);
  requests_post : Log -> str -> str -> str -> PostResult
}.

Definition SYMBOLS : list str :=
  [u "MBB"; u "HPG"; u "SSI"; u "PVP"; u "KSB"; u "QTP"].

(** Effectful code: a function of the log that returns a value and the
    extended log. *)
Definition M (A : Type) : Type := Log -> A * Log.

Definition ret {A} (a : A) : M A := fun l => (a, l).

Definition bind {A B} (c : M A) (k : A -> M B) : M B :=
  fun l => let (a, l') := c l in k a l'.

Definition emit (e : Event) : M unit := fun l => (tt, l ++ [e]).

Declare Scope io_scope.
Delimit Scope io_scope with io.
Notation "x <- c ;; k" := (bind c (fun x => k))
  (at level 61, c at next level, right associativity) : io_scope.
Notation "c ;; k" := (bind c (fun _ => k))
  (at level 61, right associativity) : io_scope.

Definition print (text : str) : M unit := emit (Print text).

Definition dbg (msg : str) : M unit := print (u "[DEBUG] " ++ msg).

(* ================================================================= *)
(** ** Data source adapter and report formatter *)

Section Report.
Context {F : FloatFmt}.
Variable env : Env.
Local Open Scope io_scope.

Definition million : Q := inject_Z 1000000.

Definition fm_money_million (v : option Q) : str :=
  match v with
  | None => u "—"
  | Some x => float_fixed comma_f0 (x / million) ++ u " Mn"
  end.

Definition fm_shares_million (v : option Z) : str :=
  match v with
  | None => u "—"
  | Some x => float_fixed comma_f2 (inject_Z x / million) ++ u " Mn"
  end.

Definition fm_pct (x : option Q) : str :=
  match x with
  | None => u "—"
  | Some p => float_fixed plus_f2 p ++ u "%"
  end.

Definition call_history (ticker period : str) : M HistResult :=
  fun l => (yf_history env l ticker period, l ++ [YfHistory ticker period]).

(** [yf_get_symbol(symbol)] *)
Definition yf_get_symbol (symbol : str) : M (option Info) :=
  let ticker := symbol ++ u ".VN" in
  h <- call_history ticker (u "60d") ;;
  let body :=
    match h with
    | HistRaises e => Raise e
    | HistNone => Ok None
    | HistFrame hist => if df_empty hist then Ok None else yf_symbol_frame hist
    end in
  match body with
  | Ok r => ret r
  | Raise e =>
      dbg (u "yf_get_symbol error for " ++ symbol ++ u ": " ++ exn_str e) ;;
      ret None
  end.

(** [yf_get_index(index_ticker)] *)
Definition yf_get_index (index_ticker : str) : M (option IndexInfo) :=
  h <- call_history index_ticker (u "120d") ;;
  let body :=
    match h with
    | HistRaises e => Raise e
    | HistNone => Ok None
    | HistFrame hist => if df_empty hist then Ok None else yf_index_frame hist
    end in
  match body with
  | Ok r => ret r
  | Raise e => dbg (u "yf_get_index error: " ++ exn_str e) ;; ret None
  end.

(** Lines 161-169: the candidates are tried in order until one gives a
    frame. *)
Definition probe_vn_index (cand : str) : M VnIndexOutcome :=
  fun l =>
    let o := vn_index env l cand in
    (o, match o with VnNoAttr => l | _ => l ++ [VnIndex cand] end).

Fixpoint vn_index_loop (cands : list str) : M (option IndexInfo) :=
  match cands with
  | [] => ret None
  | cand :: rest =>
      o <- probe_vn_index cand ;;
      match o with
      | VnFrame last p => ret (Some {| idx_last := last; idx_pct := p |})
      | _ => vn_index_loop rest
      end
  end.

(** Lines 176-179; formatting a [None] percent change with [+.2f] raises. *)
Definition index_line (idx_info : option IndexInfo) : res str :=
  match idx_info with
  | Some i =>
      match idx_pct i with
      | Some p =>
          Ok (u "📈 VN-Index: " ++ float_fixed f2 (idx_last i) ++ u " ("
                ++ float_fixed plus_f2 p ++ u "%) | GTGD: " ++ fm_money_million None)
      | None => Raise TypeError_format
      end
  | None => Ok (u "📈 VN-Index: — (lỗi dữ liệu)")
  end.

(** [d.get(key)] *)
Fixpoint dict_get (d : FlowDict) (key : str) : option Q :=
  match d with
  | [] => None
  | (k, v) :: rest => if str_eq_dec k key then v else dict_get rest key
  end.

(** [a or b] on optional numbers: [a] when it is truthy. *)
Definition py_or (a b : option Q) : option Q :=
  match a with
  | Some x => if nonzero x then a else b
  | None => b
  end.

Definition call_vn_foreign (symbol : option str) : M (res (option FlowDict)) :=
  fun l => (try_vn_foreign env l symbol, l ++ [VnForeign symbol]).

(** Lines 182-200. *)
Definition foreign_market_line : M str :=
  fmarket <- (if vns env && USE_VNSTOCK env then
                r <- call_vn_foreign None ;;
                match r with
                | Ok d => ret d
                | Raise e =>
                    dbg (u "vnstock foreign market failed: " ++ exn_str e) ;;
                    ret None
                end
              else ret None) ;;
  match fmarket with
  | Some ((_ :: _) as d) =>
      let fb := py_or (py_or (py_or (dict_get d (u "buy")) (dict_get d (u "buy_value")))
                             (dict_get d (u "total_buy"))) (dict_get d (u "buy_total")) in
      let fs := py_or (py_or (py_or (dict_get d (u "sell")) (dict_get d (u "sell_value")))
                             (dict_get d (u "total_sell"))) (dict_get d (u "sell_total")) in
      let fn := match fb, fs with
                | Some b, Some s => Some (b - s)%Q
                | _, _ => None
                end in
      ret (u "🔁 Khối ngoại (toàn TT): Mua " ++ fm_money_million fb ++ u " / Bán "
             ++ fm_money_million fs ++ u " → Ròng " ++ fm_money_million fn)
  | _ => ret (u "🔁 Khối ngoại (toàn TT): —")
  end.

(** Lines 209-218: the foreign buy and sell totals of one symbol. *)
Definition symbol_flows (s : str) : M (option Q * option Q) :=
  if vns env && USE_VNSTOCK env then
    r <- call_vn_foreign (Some s) ;;
    match r with
    | Ok (Some d) =>
        ret (py_or (py_or (dict_get d (u "buy")) (dict_get d (u "buy_value")))
                   (dict_get d (u "buy_total")),
             py_or (py_or (dict_get d (u "sell")) (dict_get d (u "sell_value")))
                   (dict_get d (u "sell_total")))
    | Ok None => ret (None, None)
    | Raise e =>
        dbg (u "vn foreign per-symbol failed for " ++ s ++ u ": " ++ exn_str e) ;;
        ret (None, None)
    end
  else ret (None, None).

(** Truthiness of an optional [int] and of a [float]. *)
Definition int_truthy (v : option Z) : bool :=
  match v with
  | Some z => negb (z =? 0)%Z
  | None => false
  end.

(** [(vol / avgvol20) if vol and avgvol20 else None] *)
Definition vol_ratio (vol avgvol20 : option Z) : option Q :=
  if int_truthy vol && int_truthy avgvol20 then
    match vol, avgvol20 with
    | Some v, Some a => Some (inject_Z v / inject_Z a)%Q
    | _, _ => None
    end
  else None.

(** [f" (VolRatio={vol_ratio:.2f}×)" if vol_ratio else ""] *)
Definition vol_ratio_s (ratio : option Q) : str :=
  match ratio with
  | Some r => if nonzero r then u " (VolRatio=" ++ float_fixed f2 r ++ u "×)" else []
  | None => []
  end.

(** [x if x else '—'] inside an f-string. *)
Definition float_or_dash (x : option Q) : str :=
  match x with
  | Some v => if nonzero v then float_repr v else u "—"
  | None => u "—"
  end.

Definition placeholder_line (s : str) : str := s ++ u ": — (lỗi dữ liệu)".

(** Line 231. *)
Definition detail_line (s : str) (info : Info) (fb fs : option Q) : str :=
  s ++ u ": " ++ float_or_dash (Some (price info)) ++ u " " ++ fm_pct (Some (pct info))
    ++ u " | KL=" ++ fm_shares_million (vol info)
    ++ vol_ratio_s (vol_ratio (vol info) (avg5_vol info))
    ++ u " | TB tuần: " ++ float_or_dash (avg5_price info) ++ u " / "
    ++ fm_shares_million (avg5_vol info)
    ++ u " | NN: Mua " ++ fm_money_million fb ++ u " / Bán " ++ fm_money_million fs.

(** Lines 207-231: the body of the first loop, for one symbol. *)
Definition detail_for (s : str) : M str :=
  info <- yf_get_symbol s ;;
  flows <- symbol_flows s ;;
  match info with
  | None => ret (placeholder_line s)
  | Some i => ret (detail_line s i (fst flows) (snd flows))
  end.

Fixpoint detail_loop (symbols : list str) (lines : list str) : M (list str) :=
  match symbols with
  | [] => ret lines
  | s :: rest =>
      line <- detail_for s ;;
      detail_loop rest (lines ++ [line])
  end.

Definition surge_up_alert (s : str) (p : Q) : str :=
  u "🔥 " ++ s ++ u " tăng mạnh: " ++ fm_pct (Some p).
Definition surge_down_alert (s : str) (p : Q) : str :=
  u "📉 " ++ s ++ u " giảm sâu: " ++ fm_pct (Some p).
Definition volume_spike_alert (s : str) (ratio : Q) : str :=
  u "📊 " ++ s ++ u " KLGD đột biến: " ++ float_fixed f1 ratio ++ u "× TB".

(** Lines 239-246: the alerts of one symbol whose data is present. *)
Definition surge_alerts (s : str) (info : Info) : list str :=
  if Qle_bool (PCT_ALERT_UP env) (pct info) then [surge_up_alert s (pct info)]
  else if Qle_bool (pct info) (PCT_ALERT_DOWN env) then [surge_down_alert s (pct info)]
  else [].

Definition spike_alerts (s : str) (info : Info) : list str :=
  match vol_ratio (vol info) (avg5_vol info) with
  | Some r =>
      if nonzero r && Qle_bool (VOL_SURGE_MULT env) r
      then [volume_spike_alert s r] else []
  | None => []
  end.

Definition alerts_of (s : str) (info : Info) : list str :=
  surge_alerts s info ++ spike_alerts s info.

(** Lines 236-246: the body of the second loop, for one symbol. *)
Definition alerts_for (s : str) : M (list str) :=
  info <- yf_get_symbol s ;;
  match info with
  | Some i => ret (alerts_of s i)
  | None => ret []
  end.

Fixpoint alert_loop (symbols : list str) (alerts : list str) : M (list str) :=
  match symbols with
  | [] => ret alerts
  | s :: rest =>
      new <- alerts_for s ;;
      alert_loop rest (alerts ++ new)
  end.

Definition header_line : str := u "📊 Báo cáo thị trường — " ++ now env.
Definition footer_line : str := u "(Thời gian báo cáo: " ++ now env ++ u ") - Bot_fixed".
Definition details_title : str := u "📌 Chi tiết mã:".
Definition alerts_title : str := u "⚠️ Alerts:".
Definition no_alerts_line : str := u "(Không có cảnh báo)".

(** Lines 157-174: the index from vnstock when it is loaded and enabled
    and one candidate gives a frame, from yfinance otherwise. *)
Definition vn_index_info : M (option IndexInfo) :=
  if vns env && USE_VNSTOCK env
  then vn_index_loop [u "index"; u "get_index"; u "market_index"]
  else ret None.

Definition index_info : M (option IndexInfo) :=
  idx_info <- vn_index_info ;;
  match idx_info with
  | None => yf_get_index (u "^VNINDEX")
  | Some i => ret (Some i)
  end.

(** [build_report()]; the only exception that escapes is the one of
    [index_line]. *)
Definition build_report : M (res str) :=
  let lines := [header_line] in
  idx_info <- index_info ;;
  match index_line idx_info with
  | Raise e => ret (Raise e)
  | Ok l =>
      let lines := lines ++ [l] in
      fl <- foreign_market_line ;;
      let lines := lines ++ [fl] in
      let lines := lines ++ [[]] in
      let lines := lines ++ [details_title] in
      lines <- detail_loop SYMBOLS lines ;;
      let lines := lines ++ [[]] in
      let lines := lines ++ [alerts_title] in
      alerts <- alert_loop SYMBOLS [] ;;
      let lines := match alerts with
                   | _ :: _ => lines ++ alerts
                   | [] => lines ++ [no_alerts_line]
                   end in
      let lines := lines ++ [[]] in
      let lines := lines ++ [footer_line] in
      ret (Ok (join [NL] lines))
  end.

End Report.

(* ================================================================= *)
(** ** Report transport and entry point *)

Section Main.
Context {F : FloatFmt}.
Variable env : Env.
Local Open Scope io_scope.

Definition call_post (url chat_id text : str) : M PostResult :=
  fun l => (requests_post env l url chat_id text, l ++ [HttpPost url chat_id text]).

(** Lines 279-287: the chunks are posted in order; [ok] turns false on a
    status other than 200 and on an exception. *)
Fixpoint post_loop (base : str) (parts : list str) (ok : bool) : M bool :=
  match parts with
  | [] => ret ok
  | part :: rest =>
      r <- call_post base (CHAT_ID env) part ;;
      match r with
      | PostStatus code body =>
          dbg (u "Telegram response " ++ Decimal.str_of_Z code ++ u ": "
                 ++ firstn 200 body) ;;
          post_loop base rest (if (code =? 200)%Z then ok else false)
      | PostRaises e =>
          dbg (u "Telegram send error: " ++ exn_str e) ;;
          post_loop base rest false
      end
  end.

(** [send_to_telegram(text)]; [None] when the loop of [chunk_text] is
    still running after [fuel] iterations. *)
Definition send_to_telegram (fuel : nat) (text : str) : M (option bool) :=
  if negb (truthy (BOT_TOKEN env)) || negb (truthy (CHAT_ID env)) then
    dbg (u "BOT_TOKEN or CHAT_ID missing - printing preview instead of sending") ;;
    print text ;;
    ret (Some false)
  else
    let base := u "https://api.telegram.org/bot" ++ BOT_TOKEN env ++ u "/sendMessage" in
    dbg (u "Sending to Telegram CHAT_ID=" ++ CHAT_ID env ++ u ", token=***"
           ++ tail 6 (BOT_TOKEN env)) ;;
    match chunk_text fuel (Some text) 3500 with
    | None => ret None
    | Some parts =>
        ok <- post_loop base parts true ;;
        ret (Some ok)
    end.

(** [main()]; the result is [None] when [send_to_telegram] is. *)
Definition main (fuel : nat) : M (option unit) :=
  r <- build_report env ;;
  match r with
  | Ok report =>
      print (u "=== Report preview ===") ;;
      print report ;;
      sent <- send_to_telegram fuel report ;;
      match sent with
      | Some true => dbg (u "Report sent/attempted.") ;; ret (Some tt)
      | Some false => dbg (u "Report not sent.") ;; ret (Some tt)
      | None => ret None
      end
  | Raise e =>
      print (u "Fatal error: " ++ exn_str e) ;;
      emit PrintExc ;;
      ret (Some tt)
  end.

End Main.

(* ================================================================= *)
(** ** Observations on a log *)

Definition Event_eq_dec : forall a b : Event, {a = b} + {a <> b}.
Proof.
  decide equality; try apply str_eq_dec.
  decide equality; apply str_eq_dec.
Defined.

(** How many times an event occurs in a log. *)
Definition occurrences (e : Event) (l : Log) : nat := count_occ Event_eq_dec l e.

Definition is_post (e : Event) : bool :=
  match e with HttpPost _ _ _ => true | _ => false end.

(** The number of network calls to the messaging endpoint in a log. *)
Definition posts (l : Log) : nat := List.length (filter is_post l).

(** The calls to the price provider in a log, in order. *)
Definition is_history (e : Event) : bool :=
  match e with YfHistory _ _ => true | _ => false end.

Definition history_calls (l : Log) : Log := filter is_history l.

(** An event that building the report may cause: a provider call or a
    debug print. *)
Definition debug_text (t : str) : Prop := exists m, t = u "[DEBUG] " ++ m.

Definition quiet (e : Event) : Prop :=
  match e with
  | Print t => debug_text t
  | PrintExc => False
  | HttpPost _ _ _ => False
  | _ => True
  end.

(** A computation only appends to the log, what it appends is [quiet], and
    the provider calls among it are [calls]. *)
Definition Emits {A} (c : M A) (calls : Log) : Prop :=
  forall l, exists d,
    snd (c l) = l ++ d /\ Forall quiet d /\ history_calls d = calls.

(** The line that the first loop of [build_report] writes for a symbol:
    the one that [detail_for] returns from some log. *)
Definition detail_of {F : FloatFmt} (env : Env) (s : str) (line : str) : Prop :=
  exists l, line = fst (detail_for env s l).

(** The per-symbol series fetch of [s], and the index series fetch. *)
Definition symbol_fetch (s : str) : Event := YfHistory (s ++ u ".VN") (u "60d").
Definition index_fetch : Event := YfHistory (u "^VNINDEX") (u "120d").


(* ================================================================= *)
(** ** Definitions that follow the specification's words *)

Module Spec.
Local Open Scope Q_scope.

(** Wilder smoothing as the specification words it: the first smoothed
    value is the first raw value, then
    [smoothed = smoothed_prev + alpha * (raw - smoothed_prev)]. *)
Fixpoint wilder_from (alpha prev : Q) (raw : list Q) : Q :=
  match raw with
  | [] => prev
  | x :: t => wilder_from alpha (prev + alpha * (x - prev)) t
  end.

Definition wilder (alpha : Q) (raw : list Q) : Q :=
  match raw with
  | [] => 0
  | x :: t => wilder_from alpha x t
  end.

(** Gains: the close-to-close differences clipped to be at least 0;
    losses: the magnitudes of the negative differences. *)
Definition gains (close : list Q) : list Q :=
  map (fun d => if Qle_bool 0 d then d else 0) (diff close).
Definition losses (close : list Q) : list Q :=
  map (fun d => if Qle_bool 0 d then 0 else - d) (diff close).

Definition smoothed_gain (close : list Q) : Q := wilder (1 # 14) (gains close).
Definition smoothed_loss (close : list Q) : Q := wilder (1 # 14) (losses close).

(** Chunking as the specification words it: a text within the limit is one
    chunk; a longer text is cut at its last newline among the first [limit]
    characters, or hard at the limit when there is none, and what remains
    is chunked in the same way. *)
Inductive Chunked (limit : nat) : str -> list str -> Prop :=
| Chunked_whole (s : str) :
    (len s <= limit)%nat -> Chunked limit s [s]
| Chunked_newline (s : str) (j : nat) (rest : list str) :
    (limit < len s)%nat ->
    (j < limit)%nat ->
    nth_error s j = Some NL ->
    (forall k, (j < k)%nat -> (k < limit)%nat -> nth_error s k <> Some NL) ->
    Chunked limit (skipn j s) rest ->
    Chunked limit s (firstn j s :: rest)
| Chunked_hard (s : str) (rest : list str) :
    (limit < len s)%nat ->
    (forall k, (k < limit)%nat -> nth_error s k <> Some NL) ->
    Chunked limit (skipn limit s) rest ->
    Chunked limit s (firstn limit s :: rest).

(** The arithmetic mean of the last [n] entries. *)
Definition last_n {A} (n : nat) (xs : list A) : list A := rev (firstn n (rev xs)).
Definition arithmetic_mean (xs : list Q) : Q :=
  fold_right Qplus 0 xs / inject_Z (Z.of_nat (List.length xs)).

End Spec.

(* ================================================================= *)
(** ** Concrete inputs used by the examples *)

Module Examples.
Local Open Scope Q_scope.

(** A newline followed by 3500 letters [a]. *)
Definition leading_newline_text : str := NL :: repeat 97%N 3500.

(** ["ab\n"] followed by a line of 3600 letters [c]. *)
Definition long_second_line_text : str := u "ab" ++ NL :: repeat 99%N 3600.


Definition frame_of (closes : list Q) (volumes : option (list Q)) : DataFrame :=
  {| Close := map Some closes; Volume := option_map (map Some) volumes |}.

(** Twenty flat closes; volumes 1000, the last one 0 (20-session mean 950). *)
Definition quiet_last_session : DataFrame :=
  frame_of (repeat 10 20) (Some (repeat 1000 19 ++ [0])).

(** Twenty flat closes; volumes 1000, the last one 3000 (20-session mean
    1100). *)
Definition busy_last_session : DataFrame :=
  frame_of (repeat 10 20) (Some (repeat 1000 19 ++ [3000])).

(** Fifteen closes: up 1 fourteen times. *)
Definition rising_15 : list Q := map (fun i => inject_Z (Z.of_nat i)) (seq 1 15).

Definition no_credentials (mult : Q) (history : Log -> str -> str -> HistResult) : Env :=
  {| BOT_TOKEN := []; CHAT_ID := []; USE_VNSTOCK := true;
     PCT_ALERT_UP := 3; PCT_ALERT_DOWN := -3; VOL_SURGE_MULT := mult;
     vns := false; now := u "2024-01-02 15:00:00";
     yf_history := history;
     vn_index := fun _ _ => VnNoAttr;
     try_vn_foreign := fun _ _ => Ok None;
     requests_post := fun _ _ _ _ => PostStatus 200 [] |}.

(** yfinance knows [MBB] only. *)
Definition only_mbb (hist : DataFrame) : Log -> str -> str -> HistResult :=
  fun _ ticker _ =>
    if str_eq_dec ticker (u "MBB.VN") then HistFrame hist
    else HistRaises (Exn (u "No data found, symbol may be delisted")).

(** A rise of exactly 3 percent and a last volume of exactly twice the
    20-session mean (1900); a fall of exactly 3 percent. *)
Definition exactly_up : DataFrame :=
  frame_of (repeat 100 19 ++ [103]) (Some (repeat 1800 19 ++ [3800])).
Definition exactly_down : DataFrame :=
  frame_of (repeat 100 19 ++ [97]) None.

Definition env_default : Env := no_credentials 2 (only_mbb busy_last_session).
Definition env_zero_mult : Env := no_credentials 0 (only_mbb quiet_last_session).

End Examples.
Import Examples.

(* ================================================================= *)
(** ** Further observations and inputs *)

(** The POST requests of a log, in order: URL, chat id and text. *)
Fixpoint posted (l : Log) : list (str * str * str) :=
  match l with
  | [] => []
  | HttpPost url chat_id text :: t => (url, chat_id, text) :: posted t
  | _ :: t => posted t
  end.

(** A call to the optional vnstock provider. *)
Definition is_vnstock (e : Event) : bool :=
  match e with
  | VnIndex _ => true
  | VnForeign _ => true
  | _ => false
  end.

(** [r.status_code == 200] for an answer, false for an exception. *)
Definition is_200 (r : PostResult) : bool :=
  match r with
  | PostStatus code _ => (code =? 200)%Z
  | PostRaises _ => false
  end.

(** Line 275: the address the chunks are posted to. *)
Definition base_url (env : Env) : str :=
  u "https://api.telegram.org/bot" ++ BOT_TOKEN env ++ u "/sendMessage".

(** What one chunk leaves in the log: its POST, then one debug line. *)
Definition post_group (env : Env) (part : str) (g : Log) : Prop :=
  exists msg,
    g = [HttpPost (base_url env) (CHAT_ID env) part; Print (u "[DEBUG] " ++ msg)].

(** An answer of the endpoint to the POST of a chunk. *)
Definition reply_to (env : Env) (part : str) (r : PostResult) : Prop :=
  exists l, r = requests_post env l (base_url env) (CHAT_ID env) part.

(** An event that is no call to vnstock. *)
Definition no_vn (e : Event) : Prop := is_vnstock e = false.

(** Every stretch of the text without a newline has fewer than [n]
    characters. *)
Definition lines_shorter_than (n : nat) (s : str) : Prop :=
  forall a b c, s = a ++ b ++ c -> ~ In NL b -> (len b < n)%nat.

(** A computation only appends to the log, and only events that satisfy
    [P]. *)
Definition Appends {A} (P : Event -> Prop) (c : M A) : Prop :=
  forall l, exists d, snd (c l) = l ++ d /\ Forall P d.


Module MoreExamples.
Local Open Scope Q_scope.

(** vnstock is loaded and enabled and its first index candidate gives a
    frame with last close 1250 and the given percent change, if any;
    yfinance knows nothing. *)
Definition env_vnstock_index (pct_change : option Q) : Env :=
  {| BOT_TOKEN := []; CHAT_ID := []; USE_VNSTOCK := true;
     PCT_ALERT_UP := 3; PCT_ALERT_DOWN := -3; VOL_SURGE_MULT := 2;
     vns := true; now := u "2024-01-02 15:00:00";
     yf_history := fun _ _ _ => HistNone;
     vn_index := fun _ _ => VnFrame 1250 pct_change;
     try_vn_foreign := fun _ _ => Ok None;
     requests_post := fun _ _ _ _ => PostStatus 200 [] |}.

(** Credentials are present; the endpoint answers with the given status. *)
Definition env_credentials (status : Z) : Env :=
  {| BOT_TOKEN := u "123456:ABCDEF"; CHAT_ID := u "42"; USE_VNSTOCK := false;
     PCT_ALERT_UP := 3; PCT_ALERT_DOWN := -3; VOL_SURGE_MULT := 2;
     vns := false; now := u "2024-01-02 15:00:00";
     yf_history := only_mbb busy_last_session;
     vn_index := fun _ _ => VnNoAttr;
     try_vn_foreign := fun _ _ => Ok None;
     requests_post := fun _ _ _ _ => PostStatus status (u "{}") |}.

(** Fifteen closes: down 1 fourteen times. *)
Definition falling_15 : list Q := rev rising_15.

(** Three short lines. *)
Definition three_lines : str := u "ab" ++ NL :: u "cd" ++ NL :: u "ef".

(** Four hundred lines of ten characters: 4400 characters. *)
Definition many_lines : str := List.concat (repeat (u "0123456789" ++ [NL]) 400).

(** The endpoint refuses the texts that start with a newline. *)
Definition env_picky : Env :=
  {| BOT_TOKEN := u "123456:ABCDEF"; CHAT_ID := u "42"; USE_VNSTOCK := false;
     PCT_ALERT_UP := 3; PCT_ALERT_DOWN := -3; VOL_SURGE_MULT := 2;
     vns := false; now := u "2024-01-02 15:00:00";
     yf_history := only_mbb busy_last_session;
     vn_index := fun _ _ => VnNoAttr;
     try_vn_foreign := fun _ _ => Ok None;
     requests_post := fun _ _ _ text =>
       match text with
       | 10%N :: _ => PostStatus 400 (u "{}")
       | _ => PostStatus 200 (u "{}")
       end |}.

End MoreExamples.
Import MoreExamples.

(* ================================================================= *)
(** * Properties *)

(* ================================================================= *)
(** ** [rfind] *)

Section RfindFacts.
Variable c : char.

Lemma rfind_go_spec (s : str) :
  forall (i n : nat) (best : Z),
    (best < Z.of_nat i)%Z ->
    (rfind_go c s i n best = best /\
     forall k, (k < n)%nat -> nth_error s k <> Some c)
    \/
    (exists j, rfind_go c s i n best = Z.of_nat (i + j) /\ (j < n)%nat /\
               nth_error s j = Some c /\
               forall k, (j < k)%nat -> (k < n)%nat -> nth_error s k <> Some c).
Proof.
  induction s as [|x s' IH]; intros i n best Hb.
  - left. destruct n; simpl; split; auto; intros k _; destruct k; discriminate.
  - destruct n as [|n'].
    + left. simpl. split; auto. intros k Hk. lia.
    + simpl.
      destruct (N.eqb_spec x c) as [Heq|Hne].
      * destruct (IH (S i) n' (Z.of_nat i)) as [[Hr Hnone]|[j [Hr [Hj [Hat Hlast]]]]];
          [lia| |].
        -- right. exists 0%nat. rewrite Hr, Nat.add_0_r.
           split; [reflexivity|]. split; [lia|]. split; [simpl; now subst|].
           intros k Hk Hkn. destruct k; [lia|]. simpl. apply Hnone. lia.
        -- right. exists (S j). rewrite Hr.
           split; [f_equal; lia|]. split; [lia|]. split; [exact Hat|].
           intros k Hk Hkn. destruct k; [lia|]. simpl. apply Hlast; lia.
      * destruct (IH (S i) n' best) as [[Hr Hnone]|[j [Hr [Hj [Hat Hlast]]]]];
          [lia| |].
        -- left. split; [exact Hr|].
           intros k Hk. destruct k; simpl.
           ++ intros H; inversion H; contradiction.
           ++ apply Hnone. lia.
        -- right. exists (S j). rewrite Hr.
           split; [f_equal; lia|]. split; [lia|]. split; [exact Hat|].
           intros k Hk Hkn. destruct k; [lia|]. simpl. apply Hlast; lia.
Qed.

(** [rfind] gives [-1] when [c] does not occur among the first [stop]
    characters, and the index of its last occurrence there otherwise. *)
Lemma rfind_spec (s : str) (stop : nat) :
  (rfind s c stop = (-1)%Z /\
   forall k, (k < stop)%nat -> nth_error s k <> Some c)
  \/
  (exists j, rfind s c stop = Z.of_nat j /\ (j < stop)%nat /\
             nth_error s j = Some c /\
             forall k, (j < k)%nat -> (k < stop)%nat -> nth_error s k <> Some c).
Proof.
  unfold rfind.
  destruct (rfind_go_spec s 0 stop (-1)) as [H|[j H]]; [lia| |].
  - left. exact H.
  - right. exists j. exact H.
Qed.

Lemma rfind_at (s : str) (stop j : nat) :
  (j < stop)%nat ->
  nth_error s j = Some c ->
  (forall k, (j < k)%nat -> (k < stop)%nat -> nth_error s k <> Some c) ->
  rfind s c stop = Z.of_nat j.
Proof.
  intros Hj Hat Hlast.
  destruct (rfind_spec s stop) as [[_ Hnone]|[j' [Hr [Hj' [Hat' Hlast']]]]].
  - exfalso. exact (Hnone j Hj Hat).
  - rewrite Hr. f_equal.
    destruct (Nat.lt_trichotomy j j') as [Hlt|[Heq|Hgt]]; auto.
    + exfalso. exact (Hlast j' Hlt Hj' Hat').
    + exfalso. exact (Hlast' j Hgt Hj Hat).
Qed.

Lemma rfind_range (s : str) (stop : nat) :
  rfind s c stop = (-1)%Z \/
  (0 <= rfind s c stop < Z.of_nat stop)%Z /\ (rfind s c stop < Z.of_nat (len s))%Z.
Proof.
  destruct (rfind_spec s stop) as [[Hr _]|[j [Hr [Hj [Hat _]]]]]; auto.
  right. rewrite Hr.
  assert (j < len s)%nat by (apply nth_error_Some; congruence).
  lia.
Qed.

End RfindFacts.

(* ================================================================= *)
(** ** [chunk_text]: where the loop makes no progress *)

Section ChunkDivergence.
Variable limit : nat.

(** One more unit of fuel is one more pass of the loop body. *)
Lemma chunk_loop_step (fuel : nat) (chunks : list str) (cur : str) :
  chunk_loop (S fuel) limit chunks cur =
    if (limit <? len cur)%nat
    then chunk_loop fuel limit (fst (chunk_step limit (chunks, cur)))
                    (snd (chunk_step limit (chunks, cur)))
    else Some (chunks, cur).
Proof. reflexivity. Qed.

(** A remaining text longer than the limit whose [rfind] is 0 is a fixed
    point of the loop body: the chunk is empty and the text stays. *)
Lemma chunk_step_stuck (chunks : list str) (cur : str) :
  rfind cur NL limit = 0%Z ->
  chunk_step limit (chunks, cur) = (chunks ++ [[]], cur).
Proof.
  intros Hr. unfold chunk_step. rewrite Hr. reflexivity.
Qed.

Lemma chunk_loop_stuck (cur : str) :
  (limit < len cur)%nat ->
  rfind cur NL limit = 0%Z ->
  forall fuel chunks, chunk_loop fuel limit chunks cur = None.
Proof.
  intros Hlen Hr fuel.
  induction fuel as [|fuel IH]; intros chunks; simpl.
  - apply Nat.ltb_lt in Hlen. now rewrite Hlen.
  - apply Nat.ltb_lt in Hlen. rewrite Hlen, Hr. simpl.
    apply IH.
Qed.

(** The loop never ends on a text one of whose suffixes is stuck. *)
Lemma chunk_loop_stuck_suffix (cur : str) :
  stuck limit cur ->
  forall fuel a chunks, chunk_loop fuel limit chunks (a ++ cur) = None.
Proof.
  intros [Hlen Hr] fuel.
  assert (Hlen' : forall a, (limit <? len (a ++ cur))%nat = true).
  { intros a. apply Nat.ltb_lt. unfold len in *. rewrite length_app. lia. }
  destruct (rfind_spec NL cur limit) as [[Hr' _]|[j [Hr' [Hj [Hat Hlast]]]]];
    [rewrite Hr in Hr'; discriminate|].
  assert (j = 0%nat) by (rewrite Hr in Hr'; lia). subst j.
  induction fuel as [|fuel IH]; intros a chunks.
  - simpl. now rewrite Hlen'.
  - cbn [chunk_loop]. rewrite Hlen'.
    assert (Hcut : exists k, (k <= List.length a)%nat /\
              (if (rfind (a ++ cur) NL limit =? -1)%Z
               then Z.of_nat limit else rfind (a ++ cur) NL limit)
              = Z.of_nat k).
    { destruct (Nat.lt_ge_cases (List.length a) limit) as [Hshort|Hlong].
      - exists (List.length a). split; [lia|].
        assert (Hra : rfind (a ++ cur) NL limit = Z.of_nat (List.length a)).
        { apply rfind_at; auto.
          - rewrite nth_error_app2 by lia. now rewrite Nat.sub_diag.
          - intros k Hk Hkl Hnth.
            rewrite nth_error_app2 in Hnth by lia.
            apply (Hlast (k - List.length a)%nat); [lia|lia|exact Hnth]. }
        rewrite Hra.
        destruct (Z.eqb_spec (Z.of_nat (List.length a)) (-1)); [lia|reflexivity].
      - destruct (rfind_range NL (a ++ cur) limit) as [Hra|[Hra _]].
        + exists limit. split; [lia|]. now rewrite Hra.
        + exists (Z.to_nat (rfind (a ++ cur) NL limit)). split; [lia|].
          destruct (Z.eqb_spec (rfind (a ++ cur) NL limit) (-1)); lia. }
    destruct Hcut as [k [Hk Hcut]].
    cbv zeta. rewrite Hcut.
    unfold slice_from, slice_to. rewrite Nat2Z.id.
    rewrite skipn_app.
    replace (k - List.length a)%nat with 0%nat by lia.
    rewrite skipn_O.
    apply IH.
Qed.

(** A newline followed by a line of at least [limit] characters is stuck. *)
Lemma long_line_stuck (b c : str) :
  (0 < limit)%nat ->
  (limit <= len b)%nat ->
  ~ In NL b ->
  stuck limit (NL :: b ++ c).
Proof.
  intros Hpos Hb Hfree. split.
  - unfold len in *. simpl. rewrite length_app. lia.
  - change 0%Z with (Z.of_nat 0). apply rfind_at; auto.
    intros k Hk Hkl Hnth. destruct k; [lia|]. simpl in Hnth.
    rewrite nth_error_app1 in Hnth by (unfold len in Hb; lia).
    apply Hfree. eapply nth_error_In; eauto.
Qed.

End ChunkDivergence.

(* ================================================================= *)
(** ** [chunk_text]: what it returns when it returns *)

Section ChunkCorrectness.
Variable limit : nat.

Lemma Chunked_concat (s : str) (cs : list str) :
  Spec.Chunked limit s cs -> List.concat cs = s.
Proof.
  induction 1 as [s Hs|s j rest _ _ _ _ _ IH|s rest _ _ _ IH]; simpl.
  - apply app_nil_r.
  - rewrite IH. apply firstn_skipn.
  - rewrite IH. apply firstn_skipn.
Qed.

Lemma Chunked_sizes (s : str) (cs : list str) :
  Spec.Chunked limit s cs -> Forall (fun c => (len c <= limit)%nat) cs.
Proof.
  induction 1 as [s Hs|s j rest _ Hj _ _ _ IH|s rest _ _ _ IH].
  - constructor; [exact Hs|constructor].
  - constructor; [|exact IH].
    unfold len. rewrite length_firstn. lia.
  - constructor; [|exact IH].
    unfold len. rewrite length_firstn. lia.
Qed.

(** The loop produces the chunks of the specification. *)
Lemma chunk_loop_sound (fuel : nat) :
  forall chunks cur chunks' cur',
    cur <> [] ->
    chunk_loop fuel limit chunks cur = Some (chunks', cur') ->
    exists new, chunks' = chunks ++ new /\ cur' <> [] /\
                Spec.Chunked limit cur (new ++ [cur']).
Proof.
  induction fuel as [|fuel IH]; intros chunks cur chunks' cur' Hne H.
  - simpl in H. destruct (Nat.ltb_spec limit (len cur)); [discriminate|].
    injection H as <- <-. exists []. rewrite app_nil_r.
    split; [reflexivity|]. split; [exact Hne|]. now constructor.
  - cbn [chunk_loop] in H.
    destruct (Nat.ltb_spec limit (len cur)) as [Hlen|Hlen].
    + cbv zeta in H.
      destruct (rfind_spec NL cur limit) as [[Hr Hnone]|[j [Hr [Hj [Hat Hlast]]]]].
      * rewrite Hr in H. simpl Z.eqb in H. cbv iota in H.
        unfold slice_to, slice_from in H. rewrite Nat2Z.id in H.
        apply IH in H.
        -- destruct H as [new [-> [Hc' Hch]]].
           exists (firstn limit cur :: new). rewrite <- app_assoc.
           split; [reflexivity|]. split; [exact Hc'|].
           simpl. now apply Spec.Chunked_hard.
        -- intros Heq. apply (f_equal (@List.length char)) in Heq.
           rewrite length_skipn in Heq. unfold len in Hlen. simpl in Heq. lia.
      * rewrite Hr in H.
        destruct (Z.eqb_spec (Z.of_nat j) (-1)) as [Hneg|_]; [lia|].
        unfold slice_to, slice_from in H. rewrite Nat2Z.id in H.
        apply IH in H.
        -- destruct H as [new [-> [Hc' Hch]]].
           exists (firstn j cur :: new). rewrite <- app_assoc.
           split; [reflexivity|]. split; [exact Hc'|].
           simpl. now apply Spec.Chunked_newline.
        -- intros Heq. apply (f_equal (@List.length char)) in Heq.
           rewrite length_skipn in Heq. unfold len in Hlen. simpl in Heq. lia.
    + injection H as <- <-. exists []. rewrite app_nil_r.
      split; [reflexivity|]. split; [exact Hne|]. now constructor.
Qed.

Lemma truthy_or_empty (s : str) : (if truthy s then s else []) = s.
Proof. now destruct s. Qed.

(** Whatever [chunk_text] returns is the chunking of the specification:
    its chunks are within the limit and their concatenation is the text. *)
Lemma chunk_text_sound (fuel : nat) (s : str) (chunks : list str) :
  chunk_text fuel (Some s) limit = Some chunks ->
  Spec.Chunked limit s chunks /\
  List.concat chunks = s /\
  Forall (fun c => (len c <= limit)%nat) chunks.
Proof.
  intros H.
  assert (Hc : Spec.Chunked limit s chunks).
  { unfold chunk_text in H. rewrite truthy_or_empty in H.
    destruct (Nat.leb_spec (len s) limit) as [Hlen|Hlen].
    - injection H as <-. now constructor.
    - destruct (chunk_loop fuel limit [] s) as [[chunks' cur']|] eqn:E; [|discriminate].
      apply chunk_loop_sound in E.
      + destruct E as [new [-> [Hc' Hch]]].
        destruct cur' as [|x t]; [contradiction|].
        simpl in H. injection H as <-. exact Hch.
      + intros ->. simpl in Hlen. lia. }
  split; [exact Hc|]. split.
  - exact (Chunked_concat s chunks Hc).
  - exact (Chunked_sizes s chunks Hc).
Qed.

(** A text within the limit is returned as a single chunk. *)
Lemma chunk_text_within_limit (fuel : nat) (s : str) :
  (len s <= limit)%nat -> chunk_text fuel (Some s) limit = Some [s].
Proof.
  intros Hlen. unfold chunk_text. rewrite truthy_or_empty.
  apply Nat.leb_le in Hlen. now rewrite Hlen.
Qed.

(** The loop ends when no suffix of the text is stuck: every pass then
    removes at least one character. *)
Lemma chunk_loop_terminates (s : str) :
  (0 < limit)%nat ->
  (forall k, ~ stuck limit (skipn k s)) ->
  forall fuel k chunks,
    (len (skipn k s) <= fuel + limit)%nat ->
    exists r, chunk_loop fuel limit chunks (skipn k s) = Some r.
Proof.
  intros Hpos Hfree fuel.
  induction fuel as [|fuel IH]; intros k chunks Hlen.
  - simpl. destruct (Nat.ltb_spec limit (len (skipn k s))); [lia|eauto].
  - cbn [chunk_loop].
    destruct (Nat.ltb_spec limit (len (skipn k s))) as [Hlong|Hshort]; [|eauto].
    cbv zeta.
    assert (Hcut : exists c, (0 < c)%nat /\
              (if (rfind (skipn k s) NL limit =? -1)%Z
               then Z.of_nat limit else rfind (skipn k s) NL limit) = Z.of_nat c).
    { destruct (rfind_range NL (skipn k s) limit) as [Hr|[Hr _]].
      - exists limit. rewrite Hr. auto.
      - exists (Z.to_nat (rfind (skipn k s) NL limit)).
        destruct (Z.eqb_spec (rfind (skipn k s) NL limit) (-1)); [lia|].
        split; [|lia].
        destruct (Z.eq_dec (rfind (skipn k s) NL limit) 0) as [H0|H0]; [|lia].
        exfalso. apply (Hfree k). split; assumption. }
    destruct Hcut as [c [Hc Hcut]]. rewrite Hcut.
    unfold slice_from. rewrite Nat2Z.id, skipn_skipn.
    apply IH. unfold len in *. rewrite length_skipn in *. lia.
Qed.

Lemma chunk_text_terminates (s : str) :
  (0 < limit)%nat ->
  (forall k, ~ stuck limit (skipn k s)) ->
  exists chunks, chunk_text (len s) (Some s) limit = Some chunks.
Proof.
  intros Hpos Hfree. unfold chunk_text. rewrite truthy_or_empty.
  destruct (len s <=? limit)%nat; [eauto|].
  destruct (chunk_loop_terminates s Hpos Hfree (len s) 0 []) as [[chunks cur] Hr].
  - simpl. lia.
  - simpl skipn in Hr. rewrite Hr. eauto.
Qed.

(** [chunk_text] returns exactly on the texts without a stuck suffix. *)
Lemma chunk_text_returns_iff (s : str) :
  (0 < limit)%nat ->
  (exists fuel chunks, chunk_text fuel (Some s) limit = Some chunks) <->
  (forall k, ~ stuck limit (skipn k s)).
Proof.
  intros Hpos. split.
  - intros [fuel [chunks H]] k Hst.
    assert (Hlen : (limit < len s)%nat).
    { destruct Hst as [Hl _]. unfold len in *. rewrite length_skipn in Hl. lia. }
    unfold chunk_text in H. rewrite truthy_or_empty in H.
    destruct (Nat.leb_spec (len s) limit); [lia|].
    rewrite <- (firstn_skipn k s) in H at 1.
    now rewrite (chunk_loop_stuck_suffix limit (skipn k s) Hst) in H.
  - intros Hfree. exists (len s). now apply chunk_text_terminates.
Qed.

End ChunkCorrectness.

(** A text of 4000 characters without a newline among its first 3500 is cut
    hard into chunks of 3500 and 500 characters. *)
Lemma chunk_text_hard_cut (fuel : nat) (s : str) :
  len s = 4000%nat ->
  (forall k, (k < 3500)%nat -> nth_error s k <> Some NL) ->
  chunk_text (S fuel) (Some s) 3500 = Some [firstn 3500 s; skipn 3500 s] /\
  len (firstn 3500 s) = 3500%nat /\ len (skipn 3500 s) = 500%nat.
Proof.
  intros Hlen Hfree.
  assert (Hr : rfind s NL 3500 = (-1)%Z).
  { destruct (rfind_spec NL s 3500) as [[Hr _]|[j [_ [Hj [Hat _]]]]]; auto.
    exfalso. exact (Hfree j Hj Hat). }
  assert (H500 : len (skipn 3500 s) = 500%nat)
    by (unfold len in *; rewrite length_skipn, Hlen; reflexivity).
  split; [|split; [unfold len in *; rewrite length_firstn, Hlen; reflexivity|exact H500]].
  unfold chunk_text. rewrite truthy_or_empty.
  destruct (Nat.leb_spec (len s) 3500) as [H|_]; [rewrite Hlen in H; lia|].
  cbn [chunk_loop].
  destruct (Nat.ltb_spec 3500 (len s)) as [_|H]; [|rewrite Hlen in H; lia].
  cbv zeta. rewrite Hr. simpl Z.eqb. cbv iota.
  unfold slice_to, slice_from. rewrite Nat2Z.id.
  assert (Hend : forall chunks,
             chunk_loop fuel 3500 chunks (skipn 3500 s) = Some (chunks, skipn 3500 s)).
  { assert (Hnot : (3500 <? len (skipn 3500 s))%nat = false)
      by (rewrite H500; reflexivity).
    intros chunks. destruct fuel; cbn [chunk_loop]; rewrite Hnot; reflexivity. }
  rewrite Hend.
  destruct (skipn 3500 s) as [|x t] eqn:E; [simpl in H500; discriminate|].
  reflexivity.
Qed.

Lemma repeat_free (x y : char) (n : nat) : x <> y -> ~ In x (repeat y n).
Proof.
  intros Hne Hin. apply repeat_spec in Hin. congruence.
Qed.

(** C3 (fails on the code).  On every text longer than 3500 characters whose
    only newline among the first 3500 characters is at index 0, the loop of
    [chunk_text] makes no progress: its body appends an empty chunk and
    leaves the remaining text as it is, so [chunk_text] returns nothing,
    whatever the number of iterations allowed. *)
Theorem chunk_text_leading_newline_no_progress (s : str) :
  (3500 < len s)%nat ->
  nth_error s 0 = Some NL ->
  (forall k, (0 < k)%nat -> (k < 3500)%nat -> nth_error s k <> Some NL) ->
  (forall chunks, chunk_step 3500 (chunks, s) = (chunks ++ [[]], s)) /\
  (forall fuel, chunk_text fuel (Some s) 3500 = None).
Proof.
  intros Hlen H0 Hlast.
  assert (Hr : rfind s NL 3500 = 0%Z).
  { change 0%Z with (Z.of_nat 0). apply rfind_at; auto. lia. }
  split.
  - intros chunks. now apply chunk_step_stuck.
  - intros fuel. unfold chunk_text.
    destruct s as [|x t]; [simpl in Hlen; lia|].
    cbn [truthy].
    assert (Hle : (len (x :: t) <=? 3500)%nat = false) by (apply Nat.leb_gt; exact Hlen).
    rewrite Hle.
    now rewrite (chunk_loop_stuck 3500 (x :: t) Hlen Hr).
Qed.

Lemma chunk_text_leading_newline_no_progress_witness :
  chunk_step 3500 ([], leading_newline_text) = ([[]], leading_newline_text) /\
  chunk_text 4000 (Some leading_newline_text) 3500 = None.
Proof.
  assert (H : (3500 < len leading_newline_text)%nat /\
              nth_error leading_newline_text 0 = Some NL /\
              (forall k, (0 < k)%nat -> (k < 3500)%nat ->
                         nth_error leading_newline_text k <> Some NL)).
  { split; [vm_compute; lia|]. split; [reflexivity|].
    intros k Hk _ Hnth. destruct k; [lia|].
    change (nth_error (repeat 97%N 3500) k = Some NL) in Hnth.
    apply nth_error_In in Hnth.
    assert (Hne : NL <> 97%N) by (unfold NL; discriminate).
    exact (@repeat_free _ _ _ Hne Hnth). }
  destruct H as [H1 [H2 H3]].
  destruct (chunk_text_leading_newline_no_progress leading_newline_text H1 H2 H3)
    as [Hstep Hfuel].
  split; [exact (Hstep []) | exact (Hfuel 4000%nat)].
Defined.

(** C2 (fails on the code).  [chunk_text] with limit 3500 returns no list of
    chunks at all, hence none whose concatenation is the text, on any text
    in which a newline is followed by a line of 3500 or more characters. *)
Theorem chunk_text_returns_nothing_after_long_line (a b c : str) :
  ~ In NL b ->
  (3500 <= len b)%nat ->
  forall fuel, chunk_text fuel (Some (a ++ NL :: b ++ c)) 3500 = None.
Proof.
  intros Hfree Hb fuel. unfold chunk_text.
  assert (Hlen : (3500 < len (a ++ NL :: b ++ c))%nat).
  { unfold len in *. rewrite length_app. simpl. rewrite length_app. lia. }
  destruct (a ++ NL :: b ++ c) as [|x t] eqn:Hs; [simpl in Hlen; lia|].
  cbn [truthy].
  assert (Hle : (len (x :: t) <=? 3500)%nat = false) by (apply Nat.leb_gt; exact Hlen).
  rewrite Hle, <- Hs.
  assert (Hstuck : stuck 3500 (NL :: b ++ c)) by (apply long_line_stuck; auto; lia).
  now rewrite (chunk_loop_stuck_suffix 3500 (NL :: b ++ c) Hstuck).
Qed.

Lemma chunk_text_returns_nothing_after_long_line_witness :
  chunk_text 4000 (Some long_second_line_text) 3500 = None.
Proof.
  change long_second_line_text with (u "ab" ++ NL :: repeat 99%N 3600 ++ []).
  apply chunk_text_returns_nothing_after_long_line.
  - apply repeat_free. unfold NL. discriminate.
  - unfold len. rewrite repeat_length. lia.
Defined.

(* ================================================================= *)
(** ** pandas operations *)

Section PandasFacts.
Local Open Scope Q_scope.

Lemma iloc_last_app {A} (l : list A) (x : A) : iloc (l ++ [x]) (-1) = Ok x.
Proof.
  unfold iloc. rewrite length_app. simpl List.length.
  change (-1 <? 0)%Z with true. cbv iota.
  replace (-1 + Z.of_nat (List.length l + 1))%Z with (Z.of_nat (List.length l)) by lia.
  destruct (Z.ltb_spec (Z.of_nat (List.length l)) 0); [lia|].
  destruct (Z.leb_spec (Z.of_nat (List.length l + 1)) (Z.of_nat (List.length l))); [lia|].
  simpl. rewrite Nat2Z.id, nth_error_app2 by lia.
  now rewrite Nat.sub_diag.
Qed.

Lemma iloc_prev_app {A} (l : list A) (y x : A) : iloc (l ++ [y; x]) (-2) = Ok y.
Proof.
  unfold iloc. rewrite length_app. simpl List.length.
  change (-2 <? 0)%Z with true. cbv iota.
  replace (-2 + Z.of_nat (List.length l + 2))%Z with (Z.of_nat (List.length l)) by lia.
  destruct (Z.ltb_spec (Z.of_nat (List.length l)) 0); [lia|].
  destruct (Z.leb_spec (Z.of_nat (List.length l + 2)) (Z.of_nat (List.length l))); [lia|].
  simpl. rewrite Nat2Z.id, nth_error_app2 by lia.
  now rewrite Nat.sub_diag.
Qed.

Lemma iloc_last_nil {A} : iloc (@nil A) (-1) = Raise IndexError.
Proof. reflexivity. Qed.

(** On a non-empty series [iloc[-1]] is the last entry. *)
Lemma iloc_last {A} (xs : list A) (d : A) :
  xs <> [] -> iloc xs (-1) = Ok (last xs d).
Proof.
  intros Hne. destruct (exists_last Hne) as [l [x ->]].
  now rewrite iloc_last_app, last_last.
Qed.


Lemma tail_last_n {A} (n : nat) (xs : list A) : tail n xs = Spec.last_n n xs.
Proof.
  unfold tail, Spec.last_n. now rewrite firstn_rev, rev_involutive.
Qed.

Lemma fold_left_Qplus (xs : list Q) (a : Q) :
  fold_left Qplus xs a == a + fold_right Qplus 0 xs.
Proof.
  revert a. induction xs as [|x t IH]; intros a; simpl.
  - lra.
  - rewrite IH. lra.
Qed.

Lemma sum_fold_right (xs : list Q) : sum xs == fold_right Qplus 0 xs.
Proof. unfold sum. rewrite fold_left_Qplus. lra. Qed.

(** The mean of a non-empty series is its arithmetic mean. *)
Lemma mean_some (xs : list Q) :
  xs <> [] -> exists m, mean xs = Some m /\ m == Spec.arithmetic_mean xs.
Proof.
  intros Hne. destruct xs as [|x t]; [contradiction|].
  eexists. split; [reflexivity|].
  unfold Spec.arithmetic_mean. now rewrite sum_fold_right.
Qed.


(** The last entry of [rolling(w).mean()] on a series of at least [w]
    entries is the mean of its last [w] entries. *)
Lemma rolling_mean_last (w : nat) (xs : list Q) :
  (0 < w)%nat -> (w <= List.length xs)%nat ->
  iloc (rolling_mean w xs) (-1) = Ok (mean (tail w xs)).
Proof.
  intros Hw Hlen. unfold rolling_mean.
  destruct (List.length xs) as [|n] eqn:Hn; [lia|].
  rewrite seq_S, map_app. cbn [map]. rewrite iloc_last_app, Nat.add_0_l.
  assert (Hle : (w <=? S n)%nat = true) by (apply Nat.leb_le; lia).
  rewrite Hle, <- Hn, firstn_all. reflexivity.
Qed.

Lemma diff_length (xs : list Q) : List.length (diff xs) = (List.length xs - 1)%nat.
Proof.
  induction xs as [|a [|b t] IH]; simpl in *; try reflexivity.
  rewrite IH. lia.
Qed.

Lemma ewm_from_length (alpha prev : Q) (xs : list Q) :
  List.length (ewm_from alpha prev xs) = List.length xs.
Proof.
  revert prev. induction xs as [|x t IH]; intros prev; simpl; auto.
Qed.

(** The last entry of the exponentially weighted mean is the Wilder
    smoothing of the specification. *)
Lemma ewm_from_last (alpha : Q) (xs : list Q) :
  forall prev p' d, prev == p' ->
    last (ewm_from alpha prev xs) d == Spec.wilder_from alpha p' xs \/ xs = [].
Proof.
  induction xs as [|x t IH]; intros prev p' d Heq; [now right|].
  left. simpl ewm_from. simpl Spec.wilder_from.
  destruct t as [|y t'].
  - simpl. rewrite Heq. lra.
  - destruct (IH ((1 - alpha) * prev + alpha * x) (p' + alpha * (x - p')) d) as [H|H];
      [rewrite Heq; lra| |discriminate].
    rewrite <- H. reflexivity.
Qed.

Lemma ewm_mean_last (alpha : Q) (xs : list Q) :
  xs <> [] ->
  exists y, iloc (ewm_mean alpha xs) (-1) = Ok y /\ y == Spec.wilder alpha xs.
Proof.
  intros Hne. destruct xs as [|x t]; [contradiction|].
  exists (last (ewm_mean alpha (x :: t)) 0). split.
  - apply iloc_last. discriminate.
  - simpl ewm_mean. simpl Spec.wilder.
    destruct t as [|y t'].
    + reflexivity.
    + destruct (ewm_from_last alpha (y :: t') x x 0) as [H|H];
        [reflexivity| |discriminate].
      rewrite <- H. reflexivity.
Qed.

(** Wilder smoothing respects equality of rationals, and stays
    non-negative on non-negative data for a factor between 0 and 1. *)
Lemma wilder_from_proper (alpha : Q) (xs ys : list Q) :
  Forall2 Qeq xs ys ->
  forall p q, p == q -> Spec.wilder_from alpha p xs == Spec.wilder_from alpha q ys.
Proof.
  induction 1 as [|x y xs ys Hxy _ IH]; intros p q Hpq; simpl; auto.
  apply IH. rewrite Hxy, Hpq. reflexivity.
Qed.

Lemma wilder_proper (alpha : Q) (xs ys : list Q) :
  Forall2 Qeq xs ys -> Spec.wilder alpha xs == Spec.wilder alpha ys.
Proof.
  destruct 1 as [|x y xs ys Hxy H]; simpl; [reflexivity|].
  now apply wilder_from_proper.
Qed.



End PandasFacts.

(* ================================================================= *)
(** ** Indicator engine *)

(** Case analysis on a boolean comparison of rationals, with the
    comparison as a proposition in each branch. *)
Ltac qle_cases a b H :=
  destruct (Qle_bool a b) eqn:H;
  [ apply Qle_bool_iff in H
  | assert (~ (a <= b)%Q) by (let X := fresh in intro X; apply Qle_bool_iff in X; congruence);
    clear H ].

(** Inversion of a chain of [res] binds that ends in [Ok]. *)
Ltac res_inv H :=
  unfold res_bind in H;
  repeat match type of H with
         | context [match ?c with Ok _ => _ | Raise _ => _ end] =>
             let E := fresh "E" in destruct c eqn:E; try discriminate H
         end.

Section IndicatorFacts.
Local Open Scope Q_scope.

Lemma nonzero_true (x : Q) : nonzero x = true <-> ~ x == 0.
Proof.
  unfold nonzero. rewrite negb_true_iff. split.
  - intros H Hx. apply Qeq_bool_iff in Hx. congruence.
  - intros H. destruct (Qeq_bool x 0) eqn:E; auto.
    apply Qeq_bool_iff in E. contradiction.
Qed.

Lemma nonzero_false (x : Q) : nonzero x = false <-> x == 0.
Proof.
  unfold nonzero. rewrite negb_false_iff. apply Qeq_bool_iff.
Qed.


Lemma losses_nonneg (close : list Q) : Forall (fun x => 0 <= x) (Spec.losses close).
Proof.
  unfold Spec.losses. apply Forall_forall. intros x Hin.
  apply in_map_iff in Hin. destruct Hin as [d [<- _]].
  qle_cases 0 d H; lra.
Qed.

(** The [downs] of the code are the losses of the specification. *)
Lemma downs_losses (close : list Q) :
  Forall2 Qeq (map (fun d => - clip_upper 0 d) (diff close)) (Spec.losses close).
Proof.
  unfold Spec.losses. induction (diff close) as [|d t IH]; simpl; constructor; auto.
  unfold clip_upper. qle_cases d 0 H1; qle_cases 0 d H2; lra.
Qed.



(** With 15 closes or more both smoothed series have a last entry, which
    is the smoothed gain and the smoothed loss of the specification. *)
Lemma roll_last (close : list Q) :
  (15 <= List.length close)%nat ->
  exists up d,
    iloc (ewm_mean (1 # 14) (map (clip_lower 0) (diff close))) (-1) = Ok up /\
    iloc (ewm_mean (1 # 14) (map (fun d => - clip_upper 0 d) (diff close))) (-1) = Ok d /\
    up == Spec.smoothed_gain close /\ d == Spec.smoothed_loss close.
Proof.
  intros Hlen.
  assert (Hd : diff close <> []).
  { intros Heq. apply (f_equal (@List.length Q)) in Heq.
    rewrite diff_length in Heq. simpl in Heq. lia. }
  destruct (ewm_mean_last (1 # 14) (map (clip_lower 0) (diff close)))
    as [up [Hup Hupeq]].
  { intros Heq. apply map_eq_nil in Heq. contradiction. }
  destruct (ewm_mean_last (1 # 14) (map (fun d => - clip_upper 0 d) (diff close)))
    as [d [Hdn Hdneq]].
  { intros Heq. apply map_eq_nil in Heq. contradiction. }
  exists up, d. repeat split; auto.
  rewrite Hdneq. apply wilder_proper, downs_losses.
Qed.

(** [rsi_of] never raises. *)
Lemma rsi_of_returns (close : list Q) : exists o, rsi_of close = Ok o.
Proof.
  unfold rsi_of.
  destruct (Nat.leb_spec 15 (List.length close)) as [Hlen|Hlen]; [|eauto].
  destruct (roll_last close Hlen) as [up [d [Hup [Hd _]]]].
  rewrite Hd. simpl res_bind. destruct (nonzero d); [|eauto].
  rewrite Hup. simpl. eauto.
Qed.




Lemma pct_change_formula (last prev : Q) :
  ~ prev == 0 -> pct_change last prev == (last / prev - 1) * 100.
Proof.
  intros H. unfold pct_change. apply nonzero_true in H. rewrite H. reflexivity.
Qed.

(** What a returned dictionary holds, field by field. *)
Lemma yf_symbol_frame_inv (hist : DataFrame) (info : Info) :
  yf_symbol_frame hist = Ok (Some info) ->
  let close := dropna (Close hist) in
  exists last prev,
    iloc close (-1) = Ok last /\
    (if (2 <=? List.length close)%nat then iloc close (-2) else Ok last) = Ok prev /\
    price info = last /\
    pct info = pct_change last prev /\
    (if (20 <=? List.length close)%nat
     then iloc (rolling_mean 20 close) (-1) else Ok None) = Ok (sma20 info) /\
    rsi_of close = Ok (rsi14 info).
Proof.
  intros H close. unfold yf_symbol_frame in H. fold close in H.
  res_inv H. injection H as <-. simpl.
  eexists _, _. repeat split; eauto.
Qed.

Lemma tail_snoc {A} (n : nat) (l : list A) (x : A) :
  tail (S n) (l ++ [x]) = tail n l ++ [x].
Proof.
  unfold tail. rewrite length_app. simpl List.length.
  rewrite skipn_app.
  replace (List.length l + 1 - S n)%nat with (List.length l - n)%nat by lia.
  replace (List.length l - n - List.length l)%nat with 0%nat by lia.
  reflexivity.
Qed.

Lemma dropna_app (a b : column) : dropna (a ++ b) = dropna a ++ dropna b.
Proof.
  induction a as [|[v|] t IH]; simpl; auto. now rewrite IH.
Qed.

(** [yf_symbol_frame] returns a dictionary whenever there is a close and
    the frame has no volume column or its last volume is a number. *)
Lemma yf_symbol_frame_returns (hist : DataFrame) :
  dropna (Close hist) <> [] ->
  (forall v, Volume hist = Some v -> exists l x, v = l ++ [Some x]) ->
  exists info, yf_symbol_frame hist = Ok (Some info).
Proof.
  intros Hclose Hvol. unfold yf_symbol_frame.
  set (close := dropna (Close hist)) in *.
  rewrite (iloc_last close 0 Hclose). cbn [res_bind].
  assert (Hprev : exists prev,
             (if (2 <=? List.length close)%nat then iloc close (-2)
              else Ok (last close 0)) = Ok prev).
  { destruct (Nat.leb_spec 2 (List.length close)) as [H2|H2]; [|eauto].
    destruct (exists_last Hclose) as [l [x Hl]].
    destruct l as [|y l'] using rev_ind.
    - rewrite Hl in H2. simpl in H2. lia.
    - rewrite Hl, <- app_assoc. cbn [app]. rewrite iloc_prev_app. eauto. }
  destruct Hprev as [prev ->]. cbn [res_bind].
  assert (Hv : exists vol avg,
             match Volume hist with
             | Some v => res_bind (iloc v (-1))
                           (fun x => res_bind (py_int x) (fun i => Ok (Some i)))
             | None => Ok None
             end = Ok vol /\
             match Volume hist with
             | Some v =>
                 if (20 <=? List.length (dropna v))%nat
                 then res_bind (py_int (nanmean (tail 20 v))) (fun i => Ok (Some i))
                 else Ok None
             | None => Ok None
             end = Ok avg).
  { destruct (Volume hist) as [v|] eqn:Ev; [|eauto].
    destruct (Hvol v eq_refl) as [l [x ->]].
    rewrite iloc_last_app. cbn [res_bind py_int].
    destruct (20 <=? _)%nat; [|eauto].
    rewrite tail_snoc. unfold nanmean. rewrite dropna_app. simpl dropna.
    destruct (mean_some (dropna (tail 19 l) ++ [x])) as [m [-> _]].
    { intros Heq. apply app_eq_nil in Heq. destruct Heq; discriminate. }
    cbn [res_bind py_int]. eauto. }
  destruct Hv as [vol [avg [-> ->]]]. cbn [res_bind].
  assert (H20 : exists o, (if (20 <=? List.length close)%nat
                           then iloc (rolling_mean 20 close) (-1) else Ok None) = Ok o).
  { destruct (Nat.leb_spec 20 (List.length close)); [|eauto].
    rewrite rolling_mean_last by lia. eauto. }
  assert (H50 : exists o, (if (50 <=? List.length close)%nat
                           then iloc (rolling_mean 50 close) (-1) else Ok None) = Ok o).
  { destruct (Nat.leb_spec 50 (List.length close)); [|eauto].
    rewrite rolling_mean_last by lia. eauto. }
  destruct H20 as [o20 ->], H50 as [o50 ->]. cbn [res_bind].
  destruct (rsi_of_returns close) as [o ->]. cbn [res_bind]. eauto.
Qed.

End IndicatorFacts.

Section IndicatorClaims.
Local Open Scope Q_scope.







End IndicatorClaims.

(* ================================================================= *)
(** ** Detail lines and alerts *)

Section LineClaims.
Context {F : FloatFmt}.
Local Open Scope Q_scope.

Lemma inject_Z_nonzero (z : Z) : z <> 0%Z -> ~ inject_Z z == 0.
Proof.
  intros Hz H. apply Hz. unfold Qeq in H. simpl in H. lia.
Qed.

Lemma ratio_nonzero (v a : Z) :
  v <> 0%Z -> a <> 0%Z -> nonzero (inject_Z v / inject_Z a) = true.
Proof.
  intros Hv Ha. apply nonzero_true. intros H.
  apply inject_Z_nonzero in Hv. apply inject_Z_nonzero in Ha.
  apply Hv.
  setoid_replace (inject_Z v) with (inject_Z v / inject_Z a * inject_Z a)
    by (field; exact Ha).
  rewrite H. ring.
Qed.

(** The ratio is computed exactly when both volumes are present and
    non-zero. *)
Lemma vol_ratio_some (vol avgvol20 : option Z) (r : Q) :
  vol_ratio vol avgvol20 = Some r <->
  exists v a, vol = Some v /\ avgvol20 = Some a /\ v <> 0%Z /\ a <> 0%Z /\
              r = inject_Z v / inject_Z a.
Proof.
  unfold vol_ratio, int_truthy. split.
  - destruct vol as [v|], avgvol20 as [a|]; simpl; try discriminate.
    + destruct (Z.eqb_spec v 0), (Z.eqb_spec a 0); simpl; try discriminate.
      intros H. injection H as <-. exists v, a. auto.
    + destruct (negb (v =? 0)%Z); discriminate.
  - intros [v [a [-> [-> [Hv [Ha ->]]]]]].
    destruct (Z.eqb_spec v 0), (Z.eqb_spec a 0); simpl; congruence.
Qed.

Lemma vol_ratio_none (vol avgvol20 : option Z) :
  vol_ratio vol avgvol20 = None <->
  (vol = None \/ vol = Some 0%Z \/ avgvol20 = None \/ avgvol20 = Some 0%Z).
Proof.
  unfold vol_ratio, int_truthy. split.
  - destruct vol as [v|], avgvol20 as [a|]; simpl; auto.
    destruct (Z.eqb_spec v 0), (Z.eqb_spec a 0); simpl; subst; auto.
    discriminate.
  - intros [ -> | [ -> | [ -> | -> ] ] ]; simpl; auto.
    + destruct vol as [v|]; simpl; auto. now rewrite andb_false_r.
    + destruct vol as [v|]; simpl; auto. now rewrite andb_false_r.
Qed.

(** C4 (amended).  A detail line is the text up to the volume, the
    volume-ratio suffix, and the rest.  The suffix is present if and only if
    the last-session volume and the 20-session baseline are both present and
    both non-zero, and it then shows their quotient; otherwise it is the
    empty text. *)
Theorem volume_ratio_suffix_spec (s : str) (info : Info) (fb fs : option Q) :
  let suffix := vol_ratio_s (vol_ratio (vol info) (avg5_vol info)) in
  detail_line s info fb fs =
    (s ++ u ": " ++ float_or_dash (Some (price info)) ++ u " " ++ fm_pct (Some (pct info))
       ++ u " | KL=" ++ fm_shares_million (vol info))
    ++ suffix
    ++ (u " | TB tuần: " ++ float_or_dash (avg5_price info) ++ u " / "
          ++ fm_shares_million (avg5_vol info)
          ++ u " | NN: Mua " ++ fm_money_million fb ++ u " / Bán " ++ fm_money_million fs)
  /\ (suffix <> [] <->
      exists v a, vol info = Some v /\ avg5_vol info = Some a /\ v <> 0%Z /\ a <> 0%Z)
  /\ (forall v a, vol info = Some v -> avg5_vol info = Some a -> v <> 0%Z -> a <> 0%Z ->
      suffix = u " (VolRatio=" ++ float_fixed f2 (inject_Z v / inject_Z a) ++ u "×)").
Proof.
  cbv zeta. split; [|split].
  - unfold detail_line. repeat rewrite <- app_assoc. reflexivity.
  - split.
    + intros Hs.
      destruct (vol_ratio (vol info) (avg5_vol info)) as [r|] eqn:Hr;
        [|now contradiction Hs].
      apply vol_ratio_some in Hr. destruct Hr as [v [a [Hv [Ha [Hv0 [Ha0 _]]]]]].
      exists v, a. auto.
    + intros [v [a [Hv [Ha [Hv0 Ha0]]]]].
      assert (Hr : vol_ratio (vol info) (avg5_vol info) = Some (inject_Z v / inject_Z a))
        by (apply vol_ratio_some; exists v, a; auto).
      rewrite Hr. unfold vol_ratio_s. rewrite ratio_nonzero by assumption.
      discriminate.
  - intros v a Hv Ha Hv0 Ha0.
    assert (Hr : vol_ratio (vol info) (avg5_vol info) = Some (inject_Z v / inject_Z a))
      by (apply vol_ratio_some; exists v, a; auto).
    rewrite Hr. unfold vol_ratio_s. now rewrite ratio_nonzero by assumption.
Qed.

End LineClaims.

Lemma volume_ratio_suffix_spec_witness :
  exists info,
    yf_symbol_frame busy_last_session = Ok (Some info) /\
    detail_line (F := Decimal.decimal_fmt) (u "MBB") info None None =
      u "MBB: 10.0 +0.00% | KL=0.00 Mn (VolRatio=2.73×) | TB tuần: 10.0 / 0.00 Mn | NN: Mua — / Bán —".
Proof.
  eexists. split; [vm_compute; reflexivity|].
  match goal with
  | |- detail_line ?s ?i ?fb ?fs = _ =>
      destruct (@volume_ratio_suffix_spec Decimal.decimal_fmt s i fb fs)
        as [Hline [_ Hshape]]
  end.
  rewrite Hline.
  rewrite (Hshape 3000%Z 1100%Z eq_refl eq_refl ltac:(discriminate) ltac:(discriminate)).
  vm_compute. reflexivity.
Defined.

(** C4 as stated fails: with a last-session volume of 0 and a baseline of
    950 both are present and the baseline is not 0, yet the line has no
    suffix. *)
Lemma volume_ratio_suffix_counterexample :
  exists info,
    yf_symbol_frame quiet_last_session = Ok (Some info) /\
    vol info = Some 0%Z /\ avg5_vol info = Some 950%Z /\ 950%Z <> 0%Z /\
    vol_ratio_s (F := Decimal.decimal_fmt) (vol_ratio (vol info) (avg5_vol info)) = [] /\
    detail_line (F := Decimal.decimal_fmt) (u "MBB") info None None =
      u "MBB: 10.0 +0.00% | KL=0.00 Mn | TB tuần: 10.0 / 0.00 Mn | NN: Mua — / Bán —".
Proof.
  eexists. split; [vm_compute; reflexivity|].
  split; [reflexivity|]. split; [reflexivity|]. split; [discriminate|].
  split; vm_compute; reflexivity.
Qed.

Section AlertClaims.
Context {F : FloatFmt}.
Variable env : Env.
Local Open Scope Q_scope.

(** C6 (amended).  The alerts of one symbol are its surge alerts followed by
    its spike alerts, each computed without the other.  A percent change at
    or above the upper threshold gives SurgeUp; otherwise one at or below
    the lower threshold gives SurgeDown; otherwise there is no surge alert.
    When the last volume and the baseline are both present and both non-zero,
    a quotient at or above the multiplier gives VolumeSpike and a smaller one
    gives none; when one of them is absent or zero there is no spike alert. *)
Theorem alert_rules_spec (s : str) (info : Info) :
  alerts_of env s info = surge_alerts env s info ++ spike_alerts env s info /\
  (PCT_ALERT_UP env <= pct info ->
   surge_alerts env s info = [surge_up_alert s (pct info)]) /\
  (~ PCT_ALERT_UP env <= pct info -> pct info <= PCT_ALERT_DOWN env ->
   surge_alerts env s info = [surge_down_alert s (pct info)]) /\
  (~ PCT_ALERT_UP env <= pct info -> ~ pct info <= PCT_ALERT_DOWN env ->
   surge_alerts env s info = []) /\
  (forall v a,
      vol info = Some v -> avg5_vol info = Some a -> v <> 0%Z -> a <> 0%Z ->
      (VOL_SURGE_MULT env <= inject_Z v / inject_Z a ->
       spike_alerts env s info = [volume_spike_alert s (inject_Z v / inject_Z a)]) /\
      (~ VOL_SURGE_MULT env <= inject_Z v / inject_Z a ->
       spike_alerts env s info = [])) /\
  (vol info = None \/ vol info = Some 0%Z \/
   avg5_vol info = None \/ avg5_vol info = Some 0%Z ->
   spike_alerts env s info = []).
Proof.
  split; [reflexivity|].
  split; [|split; [|split; [|split]]].
  - intros Hup. unfold surge_alerts. apply Qle_bool_iff in Hup. now rewrite Hup.
  - intros Hnup Hdown. unfold surge_alerts.
    qle_cases (PCT_ALERT_UP env) (pct info) H1; [contradiction|].
    apply Qle_bool_iff in Hdown. now rewrite Hdown.
  - intros Hnup Hndown. unfold surge_alerts.
    qle_cases (PCT_ALERT_UP env) (pct info) H1; [contradiction|].
    qle_cases (pct info) (PCT_ALERT_DOWN env) H2; [contradiction|reflexivity].
  - intros v a Hv Ha Hv0 Ha0.
    assert (Hr : vol_ratio (vol info) (avg5_vol info) = Some (inject_Z v / inject_Z a))
      by (apply vol_ratio_some; exists v, a; auto).
    unfold spike_alerts. rewrite Hr, ratio_nonzero by assumption.
    split.
    + intros Hge. apply Qle_bool_iff in Hge. now rewrite Hge.
    + intros Hlt.
      qle_cases (VOL_SURGE_MULT env) (inject_Z v / inject_Z a) H1;
        [contradiction|reflexivity].
  - intros Habs. unfold spike_alerts.
    apply vol_ratio_none in Habs. now rewrite Habs.
Qed.

(** With a positive multiplier a zero last volume cannot reach the
    multiplier, so the spike rule needs no condition on the last volume. *)
Lemma spike_rule_positive_multiplier (s : str) (info : Info) (v a : Z) :
  0 < VOL_SURGE_MULT env ->
  vol info = Some v -> avg5_vol info = Some a -> a <> 0%Z ->
  VOL_SURGE_MULT env <= inject_Z v / inject_Z a ->
  spike_alerts env s info = [volume_spike_alert s (inject_Z v / inject_Z a)].
Proof.
  intros Hpos Hv Ha Ha0 Hge.
  assert (Hv0 : v <> 0%Z).
  { intros ->. unfold Qdiv in Hge. rewrite Qmult_0_l in Hge. lra. }
  unfold spike_alerts.
  assert (Hr : vol_ratio (vol info) (avg5_vol info) = Some (inject_Z v / inject_Z a))
    by (apply vol_ratio_some; exists v, a; auto).
  rewrite Hr, ratio_nonzero by assumption.
  apply Qle_bool_iff in Hge. now rewrite Hge.
Qed.

End AlertClaims.

Lemma alert_rules_spec_witness :
  (exists info,
      yf_symbol_frame exactly_up = Ok (Some info) /\
      alerts_of (F := Decimal.decimal_fmt) env_default (u "MBB") info =
        [u "🔥 MBB tăng mạnh: +3.00%"; u "📊 MBB KLGD đột biến: 2.0× TB"]) /\
  (exists info,
      yf_symbol_frame exactly_down = Ok (Some info) /\
      alerts_of (F := Decimal.decimal_fmt) env_default (u "MBB") info =
        [u "📉 MBB giảm sâu: -3.00%"]).
Proof.
  split.
  - eexists. split; [vm_compute; reflexivity|].
    match goal with
    | |- alerts_of ?e ?s ?i = _ =>
        destruct (@alert_rules_spec Decimal.decimal_fmt e s i)
          as [Hall [Hup [_ [_ [Hspike _]]]]]
    end.
    rewrite Hall, Hup by (vm_compute; discriminate).
    destruct (Hspike 3800%Z 1900%Z eq_refl eq_refl ltac:(discriminate) ltac:(discriminate))
      as [Hge _].
    rewrite Hge by (vm_compute; discriminate).
    vm_compute. reflexivity.
  - eexists. split; [vm_compute; reflexivity|].
    match goal with
    | |- alerts_of ?e ?s ?i = _ =>
        destruct (@alert_rules_spec Decimal.decimal_fmt e s i)
          as [Hall [_ [Hdown [_ [_ Hnone]]]]]
    end.
    rewrite Hall, Hdown, Hnone.
    + vm_compute. reflexivity.
    + left. reflexivity.
    + intros H. vm_compute in H. apply H. reflexivity.
    + vm_compute. discriminate.
Defined.

(** C6 as stated fails: with the multiplier configured as 0, a last volume
    of 0 and a baseline of 950, both are present and the quotient 0 is at
    least the multiplier, yet no VolumeSpike alert is produced. *)
Lemma alert_rules_counterexample :
  exists info,
    yf_symbol_frame quiet_last_session = Ok (Some info) /\
    vol info = Some 0%Z /\ avg5_vol info = Some 950%Z /\
    (VOL_SURGE_MULT env_zero_mult <= inject_Z 0 / inject_Z 950)%Q /\
    alerts_of (F := Decimal.decimal_fmt) env_zero_mult (u "MBB") info = [] /\
    fst (alerts_for (F := Decimal.decimal_fmt) env_zero_mult (u "MBB") []) = [].
Proof.
  eexists. split; [vm_compute; reflexivity|].
  split; [reflexivity|]. split; [reflexivity|]. split; [vm_compute; discriminate|].
  split; vm_compute; reflexivity.
Qed.

(* ================================================================= *)
(** ** What building the report does to the log *)

Section LogFacts.

Lemma history_calls_app (a b : Log) :
  history_calls (a ++ b) = history_calls a ++ history_calls b.
Proof. apply filter_app. Qed.

Lemma occurrences_app (e : Event) (a b : Log) :
  occurrences e (a ++ b) = (occurrences e a + occurrences e b)%nat.
Proof. apply count_occ_app. Qed.

Lemma occurrences_cons_neq (e x : Event) (l : Log) :
  x <> e -> occurrences e (x :: l) = occurrences e l.
Proof. intros H. unfold occurrences. now apply count_occ_cons_neq. Qed.

Lemma occurrences_cons_eq (e : Event) (l : Log) :
  occurrences e (e :: l) = S (occurrences e l).
Proof. unfold occurrences. now apply count_occ_cons_eq. Qed.

Lemma occurrences_history (e : Event) (l : Log) :
  is_history e = true -> occurrences e l = occurrences e (history_calls l).
Proof.
  intros He. unfold occurrences, history_calls.
  induction l as [|x t IH]; simpl; [reflexivity|].
  destruct (Event_eq_dec x e) as [->|Hne].
  - rewrite He. simpl. destruct (Event_eq_dec e e); [|contradiction].
    now rewrite IH.
  - destruct (is_history x); simpl; auto.
    destruct (Event_eq_dec x e); [contradiction|auto].
Qed.

Lemma debug_text_head (t : str) : debug_text t -> exists t', t = 91%N :: t'.
Proof. intros [m ->]. eexists. reflexivity. Qed.

(** A quiet log holds no print of a text that does not start with an
    opening bracket, no POST and no traceback. *)
Lemma quiet_no_print (d : Log) (c : char) (t : str) :
  Forall quiet d -> c <> 91%N -> occurrences (Print (c :: t)) d = 0%nat.
Proof.
  intros Hq Hc. unfold occurrences. apply count_occ_not_In.
  intros Hin. rewrite Forall_forall in Hq. apply Hq in Hin.
  apply debug_text_head in Hin. destruct Hin as [t' Heq].
  injection Heq as -> _. contradiction.
Qed.

Lemma quiet_no_post (d : Log) : Forall quiet d -> posts d = 0%nat.
Proof.
  unfold posts. induction 1 as [|e t He _ IH]; simpl; [reflexivity|].
  destruct e; simpl in *; auto. contradiction.
Qed.

Lemma quiet_no_traceback (d : Log) : Forall quiet d -> ~ In PrintExc d.
Proof.
  intros Hq Hin. rewrite Forall_forall in Hq. exact (Hq _ Hin).
Qed.

Lemma Emits_ret {A} (a : A) : Emits (ret a) [].
Proof.
  intros l. exists []. simpl. rewrite app_nil_r. auto.
Qed.

Lemma Emits_bind {A B} (c : M A) (k : A -> M B) (X Y : Log) :
  Emits c X -> (forall a, Emits (k a) Y) -> Emits (bind c k) (X ++ Y).
Proof.
  intros Hc Hk l. unfold bind.
  destruct (Hc l) as [d1 [H1 [Q1 C1]]].
  destruct (c l) as [a l1]. simpl in H1. subst l1.
  destruct (Hk a (l ++ d1)) as [d2 [H2 [Q2 C2]]].
  exists (d1 ++ d2). rewrite H2, app_assoc. split; [reflexivity|].
  split; [now apply Forall_app|].
  now rewrite history_calls_app, C1, C2.
Qed.

Lemma Emits_dbg (msg : str) : Emits (dbg msg) [].
Proof.
  intros l. exists [Print (u "[DEBUG] " ++ msg)]. split; [reflexivity|].
  split; [|reflexivity].
  constructor; [|constructor]. now exists msg.
Qed.

End LogFacts.

Section ReportFacts.
Context {F : FloatFmt}.
Variable env : Env.

Lemma Emits_call_history (ticker period : str) :
  Emits (call_history env ticker period) [YfHistory ticker period].
Proof.
  intros l. exists [YfHistory ticker period]. split; [reflexivity|].
  split; [|reflexivity]. constructor; [exact I|constructor].
Qed.

Lemma Emits_call_vn_foreign (symbol : option str) :
  Emits (call_vn_foreign env symbol) [].
Proof.
  intros l. exists [VnForeign symbol]. split; [reflexivity|].
  split; [|reflexivity]. constructor; [exact I|constructor].
Qed.

Lemma Emits_probe_vn_index (cand : str) : Emits (probe_vn_index env cand) [].
Proof.
  intros l. unfold probe_vn_index. simpl.
  destruct (vn_index env l cand);
    [exists []; rewrite app_nil_r; auto | | |];
    (exists [VnIndex cand]; split; [reflexivity|]; split; [|reflexivity];
     constructor; [exact I|constructor]).
Qed.

Lemma yf_get_symbol_emits (s : str) : Emits (yf_get_symbol env s) [symbol_fetch s].
Proof.
  unfold yf_get_symbol.
  change [symbol_fetch s] with ([symbol_fetch s] ++ []).
  apply Emits_bind; [apply Emits_call_history|].
  intros h.
  destruct (match h with
            | HistRaises e => Raise e
            | HistNone => Ok None
            | HistFrame hist => if df_empty hist then Ok None else yf_symbol_frame hist
            end) as [r|e].
  - apply Emits_ret.
  - change (@nil Event) with (@nil Event ++ []).
    apply Emits_bind; [apply Emits_dbg|]. intros _. apply Emits_ret.
Qed.

Lemma yf_get_index_emits (t : str) :
  Emits (yf_get_index env t) [YfHistory t (u "120d")].
Proof.
  unfold yf_get_index.
  change [YfHistory t (u "120d")] with ([YfHistory t (u "120d")] ++ []).
  apply Emits_bind; [apply Emits_call_history|].
  intros h.
  destruct (match h with
            | HistRaises e => Raise e
            | HistNone => Ok None
            | HistFrame hist => if df_empty hist then Ok None else yf_index_frame hist
            end) as [r|e].
  - apply Emits_ret.
  - change (@nil Event) with (@nil Event ++ []).
    apply Emits_bind; [apply Emits_dbg|]. intros _. apply Emits_ret.
Qed.

Lemma vn_index_loop_emits (cands : list str) : Emits (vn_index_loop env cands) [].
Proof.
  induction cands as [|cand rest IH]; simpl; [apply Emits_ret|].
  change (@nil Event) with (@nil Event ++ []).
  apply Emits_bind; [apply Emits_probe_vn_index|].
  intros o. destruct o; auto. apply Emits_ret.
Qed.

Lemma vn_index_info_emits : Emits (vn_index_info env) [].
Proof.
  unfold vn_index_info. destruct (vns env && USE_VNSTOCK env).
  - apply vn_index_loop_emits.
  - apply Emits_ret.
Qed.

Lemma symbol_flows_emits (s : str) : Emits (symbol_flows env s) [].
Proof.
  unfold symbol_flows. destruct (vns env && USE_VNSTOCK env); [|apply Emits_ret].
  change (@nil Event) with (@nil Event ++ []).
  apply Emits_bind; [apply Emits_call_vn_foreign|].
  intros [[d|]|e]; try apply Emits_ret.
  change (@nil Event) with (@nil Event ++ []).
  apply Emits_bind; [apply Emits_dbg|]. intros _. apply Emits_ret.
Qed.

Lemma foreign_market_line_emits : Emits (foreign_market_line env) [].
Proof.
  unfold foreign_market_line.
  change (@nil Event) with (@nil Event ++ []).
  apply Emits_bind.
  - destruct (vns env && USE_VNSTOCK env); [|apply Emits_ret].
    change (@nil Event) with (@nil Event ++ []).
    apply Emits_bind; [apply Emits_call_vn_foreign|].
    intros [d|e]; [apply Emits_ret|].
    change (@nil Event) with (@nil Event ++ []).
    apply Emits_bind; [apply Emits_dbg|]. intros _. apply Emits_ret.
  - intros [[|kv d]|]; apply Emits_ret.
Qed.

Lemma detail_for_emits (s : str) : Emits (detail_for env s) [symbol_fetch s].
Proof.
  unfold detail_for.
  change [symbol_fetch s] with ([symbol_fetch s] ++ [] ++ []).
  apply Emits_bind; [apply yf_get_symbol_emits|]. intros info.
  apply Emits_bind; [apply symbol_flows_emits|]. intros flows.
  destruct info; apply Emits_ret.
Qed.

Lemma alerts_for_emits (s : str) : Emits (alerts_for env s) [symbol_fetch s].
Proof.
  unfold alerts_for.
  change [symbol_fetch s] with ([symbol_fetch s] ++ []).
  apply Emits_bind; [apply yf_get_symbol_emits|]. intros info.
  destruct info; apply Emits_ret.
Qed.

(** The first loop appends one line per symbol, in order, and fetches
    each symbol once. *)
Lemma detail_loop_spec (symbols : list str) :
  forall lines l, exists details d,
    detail_loop env symbols lines l = (lines ++ details, l ++ d) /\
    Forall quiet d /\
    history_calls d = map symbol_fetch symbols /\
    Forall2 (detail_of env) symbols details.
Proof.
  induction symbols as [|s rest IH]; intros lines l.
  - exists [], []. simpl. unfold ret. rewrite !app_nil_r. auto.
  - simpl. unfold bind.
    destruct (detail_for_emits s l) as [d1 [H1 [Q1 C1]]].
    destruct (detail_for env s l) as [line l1] eqn:E. simpl in H1. subst l1.
    destruct (IH (lines ++ [line]) (l ++ d1)) as [details [d2 [H2 [Q2 [C2 R2]]]]].
    exists (line :: details), (d1 ++ d2).
    rewrite H2, <- !app_assoc. split; [reflexivity|].
    split; [now apply Forall_app|].
    split; [now rewrite history_calls_app, C1, C2|].
    constructor; auto. exists l. now rewrite E.
Qed.

(** The second loop fetches each symbol once more. *)
Lemma alert_loop_spec (symbols : list str) :
  forall alerts l, exists new d,
    alert_loop env symbols alerts l = (alerts ++ new, l ++ d) /\
    Forall quiet d /\
    history_calls d = map symbol_fetch symbols.
Proof.
  induction symbols as [|s rest IH]; intros alerts l.
  - exists [], []. simpl. unfold ret. rewrite !app_nil_r. auto.
  - simpl. unfold bind.
    destruct (alerts_for_emits s l) as [d1 [H1 [Q1 C1]]].
    destruct (alerts_for env s l) as [new1 l1] eqn:E. simpl in H1. subst l1.
    destruct (IH (alerts ++ new1) (l ++ d1)) as [new2 [d2 [H2 [Q2 C2]]]].
    exists (new1 ++ new2), (d1 ++ d2).
    rewrite H2, <- !app_assoc. split; [reflexivity|].
    split; [now apply Forall_app|].
    now rewrite history_calls_app, C1, C2.
Qed.

(** The index comes from yfinance, with one fetch, exactly when vnstock
    gave none. *)
Lemma index_info_spec (l : Log) :
  exists d,
    snd (index_info env l) = l ++ d /\
    Forall quiet d /\
    history_calls d = match fst (vn_index_info env l) with
                      | Some _ => []
                      | None => [index_fetch]
                      end.
Proof.
  unfold index_info, bind.
  destruct (vn_index_info_emits l) as [d1 [H1 [Q1 C1]]].
  destruct (vn_index_info env l) as [[i|] l1]; simpl in H1; subst l1; simpl fst.
  - exists d1. auto.
  - destruct (yf_get_index_emits (u "^VNINDEX") (l ++ d1)) as [d2 [H2 [Q2 C2]]].
    exists (d1 ++ d2). rewrite H2, app_assoc. split; [reflexivity|].
    split; [now apply Forall_app|].
    now rewrite history_calls_app, C1, C2.
Qed.

End ReportFacts.

Section BuildReportFacts.
Context {F : FloatFmt}.
Variable env : Env.

Lemma run_pair {A} (c : M A) (l : Log) : c l = (fst (c l), snd (c l)).
Proof. now destruct (c l). Qed.

(** When the index line cannot be formatted, [build_report] raises before
    it looks at any symbol. *)
Lemma build_report_raises (l0 : Log) (e : exn) :
  index_line (fst (index_info env l0)) = Raise e ->
  build_report env l0 = (Raise e, snd (index_info env l0)).
Proof.
  intros H. unfold build_report, bind.
  rewrite (run_pair (index_info env) l0). now rewrite H.
Qed.

(** Otherwise it returns the report: the header, the index line, the
    foreign-flow line, one line per symbol, the alerts and the footer. *)
Lemma build_report_returns (l0 : Log) (il : str) :
  index_line (fst (index_info env l0)) = Ok il ->
  exists fl details alerts d,
    build_report env l0 =
      (Ok (join [NL] ([header_line env; il; fl; []; details_title] ++ details
                        ++ [[]; alerts_title] ++ alerts ++ [[]; footer_line env])),
       l0 ++ d) /\
    Forall2 (detail_of env) SYMBOLS details /\
    Forall quiet d /\
    history_calls d =
      match fst (vn_index_info env l0) with
      | Some _ => []
      | None => [index_fetch]
      end ++ map symbol_fetch SYMBOLS ++ map symbol_fetch SYMBOLS.
Proof.
  intros H. unfold build_report, bind.
  destruct (index_info_spec env l0) as [d1 [H1 [Q1 C1]]].
  rewrite (run_pair (index_info env) l0), H, H1.
  destruct (foreign_market_line_emits env (l0 ++ d1)) as [d2 [H2 [Q2 C2]]].
  destruct (foreign_market_line env (l0 ++ d1)) as [fl l2]. simpl in H2. subst l2.
  destruct (detail_loop_spec env SYMBOLS
              (((([header_line env] ++ [il]) ++ [fl]) ++ [[]]) ++ [details_title])
              ((l0 ++ d1) ++ d2))
    as [details [d3 [H3 [Q3 [C3 R3]]]]].
  rewrite H3.
  destruct (alert_loop_spec env SYMBOLS [] (((l0 ++ d1) ++ d2) ++ d3))
    as [alerts [d4 [H4 [Q4 C4]]]].
  rewrite H4.
  exists fl, details,
    (match alerts with _ :: _ => alerts | [] => [no_alerts_line] end),
    (d1 ++ d2 ++ d3 ++ d4).
  split; [|split; [exact R3|split]].
  - unfold ret. f_equal.
    + f_equal. f_equal.
      destruct alerts; cbn [app]; rewrite <- !app_assoc; cbn [app]; reflexivity.
    + rewrite <- !app_assoc. reflexivity.
  - apply Forall_app; split; [assumption|].
    apply Forall_app; split; [assumption|].
    apply Forall_app; split; assumption.
  - rewrite !history_calls_app, C1, C2, C3, C4. reflexivity.
Qed.

Lemma join_cons2 (sep a b : str) (rest : list str) :
  join sep (a :: b :: rest) = a ++ sep ++ join sep (b :: rest).
Proof. reflexivity. Qed.

Lemma header_line_head : exists t, header_line env = 128202%N :: t.
Proof.
  assert (E : exists t, u "📊 Báo cáo thị trường — " = 128202%N :: t)
    by (eexists; vm_compute; reflexivity).
  destruct E as [t E]. unfold header_line. rewrite E.
  exists (t ++ now env). reflexivity.
Qed.

(** A returned report starts with the header, so it is not a debug
    text. *)
Lemma report_head (l0 l1 : Log) (report : str) :
  build_report env l0 = (Ok report, l1) ->
  exists t, report = 128202%N :: t.
Proof.
  intros H.
  destruct (index_line (fst (index_info env l0))) as [il|e] eqn:E.
  - destruct (build_report_returns l0 il E) as [fl [details [alerts [d [Hb _]]]]].
    assert (Hrep : report =
              join [NL] ([header_line env; il; fl; []; details_title] ++ details
                           ++ [[]; alerts_title] ++ alerts ++ [[]; footer_line env]))
      by (rewrite Hb in H; congruence).
    rewrite Hrep.
    destruct header_line_head as [t Ht].
    change ([header_line env; il; fl; []; details_title] ++ ?X)
      with (header_line env :: il :: ([fl; []; details_title] ++ X)).
    rewrite join_cons2, Ht. eexists. reflexivity.
  - rewrite (build_report_raises l0 e E) in H. discriminate.
Qed.




End BuildReportFacts.


(* ================================================================= *)
(** ** The run: [send_to_telegram] and [main] *)

Section MainFacts.
Context {F : FloatFmt}.
Variable env : Env.




(** Without credentials [send_to_telegram] prints the text and returns
    false; the log gets no POST. *)
Lemma send_without_credentials (fuel : nat) (text : str) (l : Log) :
  negb (truthy (BOT_TOKEN env)) || negb (truthy (CHAT_ID env)) = true ->
  send_to_telegram env fuel text l =
    (Some false,
     l ++ [Print (u "[DEBUG] " ++
                    u "BOT_TOKEN or CHAT_ID missing - printing preview instead of sending");
           Print text]).
Proof.
  intros Hc. unfold send_to_telegram. rewrite Hc.
  unfold bind, dbg, print, emit, ret. now rewrite <- app_assoc.
Qed.

Lemma main_without_credentials (fuel : nat) (l0 l1 : Log) (report : str) :
  negb (truthy (BOT_TOKEN env)) || negb (truthy (CHAT_ID env)) = true ->
  build_report env l0 = (Ok report, l1) ->
  main env fuel l0 =
    (Some tt,
     l1 ++ [Print (u "=== Report preview ===");
            Print report;
            Print (u "[DEBUG] " ++
                     u "BOT_TOKEN or CHAT_ID missing - printing preview instead of sending");
            Print report;
            Print (u "[DEBUG] " ++ u "Report not sent.")]).
Proof.
  intros Hc Hb. unfold main, bind. rewrite Hb. unfold print at 1 2, emit.
  rewrite send_without_credentials by assumption.
  unfold dbg, print, emit, ret. now rewrite <- !app_assoc.
Qed.

(** yfinance gives no index or one with a percent change. *)
Lemma yf_get_index_shape (t : str) (l : Log) :
  fst (yf_get_index env t l) = None \/
  exists i p, fst (yf_get_index env t l) = Some i /\ idx_pct i = Some p.
Proof.
  unfold yf_get_index, bind, call_history.
  destruct (yf_history env l t (u "120d")) as [e| |hist].
  - left. reflexivity.
  - left. reflexivity.
  - destruct (df_empty hist); [left; reflexivity|].
    unfold yf_index_frame.
    destruct (iloc (dropna (Close hist)) (-1)) as [lst|e]; cbn [res_bind];
      [|left; reflexivity].
    destruct (if (2 <=? List.length (dropna (Close hist)))%nat
              then iloc (dropna (Close hist)) (-2) else Ok lst) as [prv|e];
      cbn [res_bind]; [|left; reflexivity].
    right. eexists _, _. split; reflexivity.
Qed.

(** The index line can always be formatted when vnstock is not loaded or
    not enabled. *)
Lemma index_line_without_vnstock (l0 : Log) :
  vns env && USE_VNSTOCK env = false ->
  exists il, index_line (fst (index_info env l0)) = Ok il.
Proof.
  intros Hv. unfold index_info, vn_index_info. rewrite Hv.
  unfold bind at 1. unfold ret at 1.
  destruct (yf_get_index_shape (u "^VNINDEX") l0) as [H|[i [p [H Hp]]]];
    rewrite H.
  - eexists. reflexivity.
  - unfold index_line. rewrite Hp. eexists. reflexivity.
Qed.

End MainFacts.

(* ================================================================= *)
(** ** Claims on the report build and the run *)

Section RunClaims.
Context {F : FloatFmt}.
Variable env : Env.

Lemma symbol_fetch_inj (a b : str) : symbol_fetch a = symbol_fetch b -> a = b.
Proof.
  unfold symbol_fetch. intros H. injection H as H.
  now apply app_inv_tail in H.
Qed.

Lemma occurrences_fetches (s : str) (symbols : list str) :
  occurrences (symbol_fetch s) (map symbol_fetch symbols) =
  count_occ str_eq_dec symbols s.
Proof.
  induction symbols as [|x t IH]; [reflexivity|]. cbn [map].
  destruct (str_eq_dec x s) as [->|Hns].
  - rewrite occurrences_cons_eq, count_occ_cons_eq by reflexivity.
    now rewrite IH.
  - rewrite occurrences_cons_neq, count_occ_cons_neq by
      (try assumption; intros He; apply symbol_fetch_inj in He; contradiction).
    exact IH.
Qed.

Lemma SYMBOLS_once (s : str) : In s SYMBOLS -> count_occ str_eq_dec SYMBOLS s = 1%nat.
Proof.
  intros Hin. apply NoDup_count_occ'; [|exact Hin].
  unfold SYMBOLS. vm_compute.
  repeat (constructor; [simpl; intuition discriminate|]). constructor.
Qed.

Lemma index_fetch_not_symbol (symbols : list str) :
  occurrences index_fetch (map symbol_fetch symbols) = 0%nat.
Proof.
  unfold occurrences. apply count_occ_not_In. intros Hin.
  apply in_map_iff in Hin. destruct Hin as [x [Hx _]].
  unfold symbol_fetch, index_fetch in Hx. injection Hx as _ Hp.
  vm_compute in Hp. discriminate.
Qed.

Lemma symbol_fetch_not_index (s : str) :
  occurrences (symbol_fetch s) [index_fetch] = 0%nat.
Proof.
  unfold occurrences. apply count_occ_not_In. intros [Hin|[]].
  unfold symbol_fetch, index_fetch in Hin. injection Hin as _ Hp.
  vm_compute in Hp. discriminate.
Qed.

Lemma build_report_inv (l0 l1 : Log) (report : str) :
  build_report env l0 = (Ok report, l1) ->
  exists il, index_line (fst (index_info env l0)) = Ok il.
Proof.
  intros H. destruct (index_line (fst (index_info env l0))) as [il|e] eqn:E; eauto.
  rewrite (build_report_raises env l0 e E) in H. discriminate.
Qed.

(** C10 (amended).  During one report build that returns a report, the
    per-symbol series fetch is called exactly twice for every watchlist
    symbol, once by the detail loop and once by the alert loop; the index
    series fetch of yfinance is called exactly once when vnstock gave no
    index, and not at all when it gave one. *)
Theorem data_source_calls_spec (l0 l1 : Log) (report : str) :
  build_report env l0 = (Ok report, l1) ->
  exists during,
    l1 = l0 ++ during /\
    (forall s, In s SYMBOLS -> occurrences (symbol_fetch s) during = 2%nat) /\
    occurrences index_fetch during =
      match fst (vn_index_info env l0) with
      | Some _ => 0%nat
      | None => 1%nat
      end.
Proof.
  intros H. destruct (build_report_inv l0 l1 report H) as [il Hil].
  destruct (build_report_returns env l0 il Hil)
    as [fl [details [alerts [d [Hb [_ [_ Hcalls]]]]]]].
  rewrite Hb in H. injection H as _ <-.
  exists d. split; [reflexivity|]. split.
  - intros s Hs.
    rewrite (occurrences_history (symbol_fetch s) d eq_refl), Hcalls.
    rewrite !occurrences_app, !occurrences_fetches, (SYMBOLS_once s Hs).
    destruct (fst (vn_index_info env l0)); [reflexivity|].
    now rewrite symbol_fetch_not_index.
  - rewrite (occurrences_history index_fetch d eq_refl), Hcalls.
    rewrite !occurrences_app, !index_fetch_not_symbol.
    destruct (fst (vn_index_info env l0)); [reflexivity|].
    now rewrite occurrences_cons_eq.
Qed.


Lemma print_neq_head (a : str) (c1 c2 : char) (t1 t2 : str) :
  a = c1 :: t1 -> c1 <> c2 -> Print a <> Print (c2 :: t2).
Proof. intros -> Hc H. injection H as H _. contradiction. Qed.

(** C5 (amended).  When the bot token or the chat id is absent,
    [send_to_telegram] returns false, appends to the log only a debug print
    and the print of the text (no POST, no exception); and over a whole run
    in which the report is built, [main] ends normally, makes no POST,
    prints no traceback, and the report text is printed exactly twice: once
    as the preview of [main] and once by [send_to_telegram]. *)
Theorem missing_credentials_spec :
  negb (truthy (BOT_TOKEN env)) || negb (truthy (CHAT_ID env)) = true ->
  (forall fuel text l,
      send_to_telegram env fuel text l =
        (Some false,
         l ++ [Print (u "[DEBUG] " ++
                        u "BOT_TOKEN or CHAT_ID missing - printing preview instead of sending");
               Print text])) /\
  (forall fuel l0 l1 report,
      build_report env l0 = (Ok report, l1) ->
      exists run,
        main env fuel l0 = (Some tt, l0 ++ run) /\
        occurrences (Print report) run = 2%nat /\
        posts run = 0%nat /\
        ~ In PrintExc run).
Proof.
  intros Hc. split.
  - intros fuel text l. now apply send_without_credentials.
  - intros fuel l0 l1 report Hb.
    destruct (report_head env l0 l1 report Hb) as [t Ht].
    destruct (build_report_inv l0 l1 report Hb) as [il Hil].
    destruct (build_report_returns env l0 il Hil)
      as [fl [details [alerts [d [Hb' [_ [Hq _]]]]]]].
    assert (Hl1 : l1 = l0 ++ d) by (rewrite Hb' in Hb; congruence).
    rewrite (main_without_credentials env fuel l0 l1 report Hc Hb), Hl1, <- app_assoc.
    eexists. split; [reflexivity|].
    assert (Hdbg : forall m, exists t', u "[DEBUG] " ++ m = 91%N :: t')
      by (intros m; eexists; reflexivity).
    assert (Htitle : exists t', u "=== Report preview ===" = 61%N :: t')
      by (eexists; vm_compute; reflexivity).
    destruct Htitle as [tt' Htitle].
    destruct (Hdbg (u "BOT_TOKEN or CHAT_ID missing - printing preview instead of sending"))
      as [t1 Ht1].
    destruct (Hdbg (u "Report not sent.")) as [t2 Ht2].
    split; [|split].
    + assert (H0 : occurrences (Print report) d = 0%nat)
        by (rewrite Ht; apply quiet_no_print; [exact Hq|discriminate]).
      rewrite occurrences_app, H0.
      rewrite occurrences_cons_neq
        by (rewrite Ht; eapply print_neq_head; [exact Htitle|discriminate]).
      rewrite occurrences_cons_eq.
      rewrite occurrences_cons_neq
        by (rewrite Ht; eapply print_neq_head; [exact Ht1|discriminate]).
      rewrite occurrences_cons_eq.
      rewrite occurrences_cons_neq
        by (rewrite Ht; eapply print_neq_head; [exact Ht2|discriminate]).
      reflexivity.
    + unfold posts. rewrite filter_app, length_app.
      fold (posts d). rewrite (quiet_no_post d Hq). reflexivity.
    + intros Hin. apply in_app_or in Hin. destruct Hin as [Hin|Hin].
      * exact (quiet_no_traceback d Hq Hin).
      * repeat (destruct Hin as [Hin|Hin]; [discriminate Hin|]). exact Hin.
Qed.

End RunClaims.

Lemma data_source_calls_spec_witness :
  exists report during,
    build_report (F := Decimal.decimal_fmt) env_default [] = (Ok report, [] ++ during) /\
    occurrences (symbol_fetch (u "HPG")) during = 2%nat /\
    occurrences index_fetch during = 1%nat.
Proof.
  assert (E : exists report l1,
             build_report (F := Decimal.decimal_fmt) env_default [] = (Ok report, l1))
    by (eexists _, _; vm_compute; reflexivity).
  destruct E as [report [l1 E]].
  destruct (@data_source_calls_spec Decimal.decimal_fmt env_default [] l1 report E)
    as [during [Hl [Hsym Hidx]]].
  exists report, during. split; [now rewrite E, Hl|]. split.
  - apply Hsym. right. left. reflexivity.
  - rewrite Hidx. reflexivity.
Defined.

(** C10 as stated fails: in a report build the series of MBB is fetched
    twice, not once. *)
Lemma data_source_calls_counterexample :
  exists report l1,
    build_report (F := Decimal.decimal_fmt) env_default [] = (Ok report, l1) /\
    In (u "MBB") SYMBOLS /\
    occurrences (symbol_fetch (u "MBB")) l1 = 2%nat.
Proof.
  eexists _, _. split; [vm_compute; reflexivity|].
  split; [left; reflexivity|]. vm_compute. reflexivity.
Qed.


Lemma missing_credentials_spec_witness :
  send_to_telegram env_default 10 (u "hello") [] =
    (Some false,
     [Print (u "[DEBUG] BOT_TOKEN or CHAT_ID missing - printing preview instead of sending");
      Print (u "hello")]) /\
  exists report run,
    fst (build_report (F := Decimal.decimal_fmt) env_default []) = Ok report /\
    main (F := Decimal.decimal_fmt) env_default 10 [] = (Some tt, run) /\
    occurrences (Print report) run = 2%nat /\
    posts run = 0%nat.
Proof.
  assert (Hc : negb (truthy (BOT_TOKEN env_default)) || negb (truthy (CHAT_ID env_default))
               = true) by reflexivity.
  destruct (@missing_credentials_spec Decimal.decimal_fmt env_default Hc) as [Hsend Hmain].
  split.
  - rewrite Hsend. vm_compute. reflexivity.
  - assert (E : exists report l1,
               build_report (F := Decimal.decimal_fmt) env_default [] = (Ok report, l1))
      by (eexists _, _; vm_compute; reflexivity).
    destruct E as [report [l1 E]].
    destruct (Hmain 10%nat [] l1 report E) as [run [Hrun [Htwice [Hposts _]]]].
    exists report, run. rewrite E. auto.
Defined.

(** C5 as stated fails: without credentials a run prints the report text
    twice, not once. *)
Lemma missing_credentials_counterexample :
  exists report l1 run,
    BOT_TOKEN env_default = [] /\
    build_report (F := Decimal.decimal_fmt) env_default [] = (Ok report, l1) /\
    main (F := Decimal.decimal_fmt) env_default 10 [] = (Some tt, run) /\
    occurrences (Print report) run = 2%nat.
Proof.
  eexists _, _, _. split; [reflexivity|].
  split; [vm_compute; reflexivity|].
  split; vm_compute; reflexivity.
Qed.

(* ================================================================= *)
(** * Further properties *)

(* ================================================================= *)
(** ** [chunk_text] *)

Section ChunkMore.
Variable limit : nat.
Hypothesis limit_pos : (0 < limit)%nat.

(** A pass of the loop that ends never leaves an empty chunk. *)
Lemma chunk_loop_nonempty (fuel : nat) :
  forall chunks cur chunks' cur',
    Forall (fun c => c <> []) chunks ->
    chunk_loop fuel limit chunks cur = Some (chunks', cur') ->
    Forall (fun c => c <> []) chunks'.
Proof.
  induction fuel as [|fuel IH]; intros chunks cur chunks' cur' Hall H.
  - simpl in H. destruct (limit <? len cur)%nat; [discriminate|].
    now injection H as <- _.
  - cbn [chunk_loop] in H.
    destruct (Nat.ltb_spec limit (len cur)) as [Hlen|Hlen];
      [|now injection H as <- _].
    cbv zeta in H.
    destruct (rfind_spec NL cur limit) as [[Hr _]|[j [Hr [Hj [Hat _]]]]].
    + rewrite Hr in H. simpl Z.eqb in H. cbv iota in H.
      apply IH in H; [exact H|].
      apply Forall_app. split; [exact Hall|].
      constructor; [|constructor].
      unfold slice_to. rewrite Nat2Z.id. intros Heq.
      apply (f_equal (@List.length char)) in Heq.
      rewrite length_firstn in Heq. unfold len in Hlen. simpl in Heq. lia.
    + destruct j as [|j'].
      * exfalso.
        assert (Hst : rfind cur NL limit = 0%Z) by (rewrite Hr; reflexivity).
        rewrite Hst in H. simpl Z.eqb in H. cbv iota in H.
        unfold slice_from in H. simpl in H.
        now rewrite (chunk_loop_stuck limit cur Hlen Hst) in H.
      * rewrite Hr in H.
        destruct (Z.eqb_spec (Z.of_nat (S j')) (-1)) as [Hneg|_]; [lia|].
        apply IH in H; [exact H|].
        apply Forall_app. split; [exact Hall|].
        constructor; [|constructor].
        unfold slice_to. rewrite Nat2Z.id. intros Heq.
        apply (f_equal (@List.length char)) in Heq.
        rewrite length_firstn in Heq. unfold len in Hlen.
        change (List.length (@nil char)) with 0%nat in Heq. lia.
Qed.

(** A text all of whose newline-free stretches are shorter than
    [limit - 1] has no stuck suffix. *)
Lemma short_lines_not_stuck (s : str) :
  lines_shorter_than (limit - 1) s -> forall k, ~ stuck limit (skipn k s).
Proof.
  intros Hshort k [Hlen Hr].
  destruct (rfind_spec NL (skipn k s) limit) as [[Hr' _]|[j [Hr' [_ [_ Hlast]]]]];
    [rewrite Hr in Hr'; discriminate|].
  assert (j = 0%nat) by (rewrite Hr in Hr'; lia). subst j.
  set (cur := skipn k s) in *.
  set (b := firstn (limit - 1) (skipn 1 cur)).
  assert (Hb : len b = (limit - 1)%nat).
  { unfold b, len in *. rewrite length_firstn, length_skipn. lia. }
  assert (Hfree : ~ In NL b).
  { intros Hin. apply In_nth_error in Hin. destruct Hin as [i Hi].
    unfold b in Hi. rewrite nth_error_firstn in Hi.
    destruct (Nat.ltb_spec i (limit - 1)) as [Hi'|_]; [|discriminate].
    rewrite nth_error_skipn in Hi.
    apply (Hlast (1 + i)%nat); [lia|lia|exact Hi]. }
  assert (Hs : s = (firstn k s ++ firstn 1 cur) ++ b ++ skipn (limit - 1) (skipn 1 cur)).
  { unfold b. rewrite firstn_skipn, <- app_assoc. unfold cur.
    now rewrite !firstn_skipn. }
  pose proof (Hshort _ _ _ Hs Hfree) as Hlt. lia.
Qed.

End ChunkMore.

(** What [chunk_text] returns is the chunking of the specification. *)
Lemma chunk_text_chunked (limit fuel : nat) (s : str) (chunks : list str) :
  chunk_text fuel (Some s) limit = Some chunks -> Spec.Chunked limit s chunks.
Proof.
  intros H. unfold chunk_text in H. rewrite truthy_or_empty in H.
  destruct (Nat.leb_spec (len s) limit) as [Hlen|Hlen].
  - injection H as <-. now constructor.
  - destruct (chunk_loop fuel limit [] s) as [[chunks' cur']|] eqn:E; [|discriminate].
    apply chunk_loop_sound in E; [|intros ->; simpl in Hlen; lia].
    destruct E as [new [-> [Hc' Hch]]].
    destruct cur' as [|x t]; [contradiction|].
    simpl in H. injection H as <-. exact Hch.
Qed.

(** X1.  Whatever [chunk_text] returns is the chunking that cuts at the
    last newline among the first [limit] characters, or hard at the limit
    when there is none: the chunks are within the limit, and their
    concatenation is the text, newlines included. *)
Theorem chunk_text_partial_correctness (limit fuel : nat) (s : str) (chunks : list str) :
  chunk_text fuel (Some s) limit = Some chunks ->
  Spec.Chunked limit s chunks /\
  List.concat chunks = s /\
  Forall (fun c => (len c <= limit)%nat) chunks.
Proof.
  intros H. pose proof (chunk_text_chunked limit fuel s chunks H) as Hc.
  split; [exact Hc|]. split.
  - exact (Chunked_concat limit s chunks Hc).
  - exact (Chunked_sizes limit s chunks Hc).
Qed.

Lemma chunk_text_partial_correctness_witness :
  chunk_text 5 (Some three_lines) 4 = Some [u "ab"; NL :: u "cd"; NL :: u "ef"] /\
  List.concat [u "ab"; NL :: u "cd"; NL :: u "ef"] = three_lines.
Proof.
  assert (E : chunk_text 5 (Some three_lines) 4 = Some [u "ab"; NL :: u "cd"; NL :: u "ef"])
    by (vm_compute; reflexivity).
  split; [exact E|].
  exact (proj1 (proj2 (chunk_text_partial_correctness 4 5 three_lines _ E))).
Defined.

(** X2.  For a positive limit, [chunk_text] returns (with enough
    iterations) exactly on the texts no suffix of which is longer than
    the limit with its only newline among the first [limit] characters at
    its start; on the others it returns for no number of iterations. *)
Theorem chunk_text_returns_exactly (limit : nat) (s : str) :
  (0 < limit)%nat ->
  ((forall k, ~ stuck limit (skipn k s)) ->
   exists chunks, chunk_text (len s) (Some s) limit = Some chunks) /\
  ((exists k, stuck limit (skipn k s)) ->
   forall fuel, chunk_text fuel (Some s) limit = None).
Proof.
  intros Hpos. split.
  - intros Hfree. now apply chunk_text_terminates.
  - intros [k Hst] fuel.
    assert (Hlen : (limit < len s)%nat).
    { destruct Hst as [Hl _]. unfold len in *. rewrite length_skipn in Hl. lia. }
    unfold chunk_text. rewrite truthy_or_empty.
    destruct (Nat.leb_spec (len s) limit); [lia|].
    rewrite <- (firstn_skipn k s) at 1.
    now rewrite (chunk_loop_stuck_suffix limit (skipn k s) Hst).
Qed.

Lemma chunk_text_returns_exactly_witness :
  (exists chunks, chunk_text (len three_lines) (Some three_lines) 4 = Some chunks) /\
  chunk_text 50 (Some (NL :: u "abcd")) 4 = None.
Proof.
  destruct (chunk_text_returns_exactly 4 three_lines ltac:(lia)) as [H _].
  destruct (chunk_text_returns_exactly 4 (NL :: u "abcd") ltac:(lia)) as [_ H'].
  split.
  - apply H. intros k [Hlen Hr].
    do 9 (destruct k as [|k];
          [first [vm_compute in Hr; discriminate Hr | vm_compute in Hlen; lia]|]).
    vm_compute in Hlen. lia.
  - apply H'. exists 0%nat. split; [vm_compute; lia|reflexivity].
Defined.

(** X3.  For a positive limit, the chunks that [chunk_text] returns for a
    non-empty text are all non-empty. *)
Theorem chunk_text_no_empty_chunk (limit fuel : nat) (s : str) (chunks : list str) :
  (0 < limit)%nat ->
  s <> [] ->
  chunk_text fuel (Some s) limit = Some chunks ->
  Forall (fun c => c <> []) chunks.
Proof.
  intros Hpos Hne H.
  unfold chunk_text in H. rewrite truthy_or_empty in H.
  destruct (len s <=? limit)%nat.
  - injection H as <-. constructor; [exact Hne|constructor].
  - destruct (chunk_loop fuel limit [] s) as [[chunks' cur']|] eqn:E; [|discriminate].
    pose proof (chunk_loop_nonempty limit Hpos fuel [] s chunks' cur' (Forall_nil _) E)
      as Hall.
    destruct cur' as [|x t]; simpl in H; injection H as <-; [exact Hall|].
    apply Forall_app. split; [exact Hall|].
    constructor; [discriminate|constructor].
Qed.

Lemma chunk_text_no_empty_chunk_witness :
  Forall (fun c => c <> []) [u "ab"; NL :: u "cd"; NL :: u "ef"].
Proof.
  apply (chunk_text_no_empty_chunk 4 5 three_lines); [lia|discriminate|].
  vm_compute. reflexivity.
Defined.

(** X4.  When every newline-free stretch of the text has fewer than
    [limit - 1] characters, [chunk_text] returns, within as many
    iterations as the text has characters, chunks within the limit whose
    concatenation is the text. *)
Theorem chunk_text_short_lines (limit : nat) (s : str) :
  (0 < limit)%nat ->
  lines_shorter_than (limit - 1) s ->
  exists chunks,
    chunk_text (len s) (Some s) limit = Some chunks /\
    List.concat chunks = s /\
    Forall (fun c => (len c <= limit)%nat) chunks.
Proof.
  intros Hpos Hshort.
  destruct (chunk_text_terminates limit s Hpos (short_lines_not_stuck limit Hpos s Hshort))
    as [chunks H].
  exists chunks. split; [exact H|].
  pose proof (chunk_text_chunked limit (len s) s chunks H) as Hc.
  split.
  - exact (Chunked_concat limit s chunks Hc).
  - exact (Chunked_sizes limit s chunks Hc).
Qed.

Lemma chunk_text_short_lines_witness :
  exists chunks,
    chunk_text (len three_lines) (Some three_lines) 4 = Some chunks /\
    List.concat chunks = three_lines.
Proof.
  destruct (chunk_text_short_lines 4 three_lines) as [chunks [H [Hc _]]];
    [lia| |eauto].
  intros a b c H Hfree.
  destruct b as [|b1 [|b2 [|b3 b']]]; try (vm_compute; lia).
  exfalso. vm_compute in H.
  do 8 (destruct a as [|? a];
        [ try discriminate H; injection H; intros; subst; apply Hfree; simpl; auto 6
        | try discriminate H; injection H as _ H ]).
  destruct a; discriminate H.
Defined.

(* ================================================================= *)
(** ** [yf_get_symbol]: the other fields *)

Section IndicatorMore.
Local Open Scope Q_scope.

Lemma iloc_last_inv {A} (xs : list A) (x : A) :
  iloc xs (-1) = Ok x -> exists l, xs = l ++ [x].
Proof.
  intros H. induction xs as [|y t _] using rev_ind; [discriminate H|].
  rewrite iloc_last_app in H. injection H as <-. now exists t.
Qed.

(** The volume fields and the two other means of a returned dictionary. *)
Lemma yf_symbol_frame_fields (hist : DataFrame) (info : Info) :
  yf_symbol_frame hist = Ok (Some info) ->
  let close := dropna (Close hist) in
  avg5_price info =
    (if (5 <=? List.length close)%nat then mean (tail 5 close) else None) /\
  (if (50 <=? List.length close)%nat
   then iloc (rolling_mean 50 close) (-1) else Ok None) = Ok (sma50 info) /\
  match Volume hist with
  | Some v =>
      exists x, iloc v (-1) = Ok (Some x) /\ vol info = Some (trunc x) /\
                (if (20 <=? List.length (dropna v))%nat
                 then res_bind (py_int (nanmean (tail 20 v))) (fun i => Ok (Some i))
                 else Ok None) = Ok (avg5_vol info)
  | None => vol info = None /\ avg5_vol info = None
  end.
Proof.
  intros H close. unfold yf_symbol_frame in H. fold close in H.
  res_inv H. injection H as <-. cbn [avg5_price sma50 vol avg5_vol].
  split; [reflexivity|]. split; [reflexivity|].
  destruct (Volume hist) as [v|].
  - destruct (iloc v (-1)) as [[x|]|e]; cbn [py_int] in E1; try discriminate E1.
    injection E1 as <-.
    exists x. split; [reflexivity|]. split; [reflexivity|]. exact E2.
  - injection E1 as <-. injection E2 as <-. split; reflexivity.
Qed.

Lemma trunc_nonneg (x : Q) :
  0 <= x -> inject_Z (trunc x) <= x /\ x < inject_Z (trunc x) + 1.
Proof.
  intros Hx.
  assert (Ht : trunc x = Qfloor x).
  { unfold trunc, Qfloor. destruct x as [n d]. simpl.
    apply Z.quot_div_nonneg; [|lia].
    unfold Qle in Hx. simpl in Hx. lia. }
  rewrite Ht. split; [apply Qfloor_le|].
  pose proof (Qlt_floor x) as Hlt. rewrite inject_Z_plus in Hlt. exact Hlt.
Qed.

(** X5.  [yf_get_symbol] returns a dictionary exactly when yfinance
    answers with a frame that has at least one close that is not NaN and,
    if it has a volume column, a last volume that is not NaN; in every
    other case (exception, [None], empty frame, only NaN closes, NaN last
    volume) it returns [None]. *)
Theorem yf_get_symbol_available (env : Env) (s : str) (l : Log) :
  (exists info, fst (yf_get_symbol env s l) = Some info) <->
  (exists hist,
      yf_history env l (s ++ u ".VN") (u "60d") = HistFrame hist /\
      dropna (Close hist) <> [] /\
      forall v, Volume hist = Some v -> exists r x, v = r ++ [Some x]).
Proof.
  unfold yf_get_symbol, bind, call_history.
  destruct (yf_history env l (s ++ u ".VN") (u "60d")) as [e| |hist] eqn:Hh.
  - split; [intros [info H]; discriminate H|intros [h [H _]]; discriminate H].
  - split; [intros [info H]; discriminate H|intros [h [H _]]; discriminate H].
  - split.
    + intros [info H]. exists hist. split; [reflexivity|].
      destruct (df_empty hist); [discriminate H|].
      destruct (yf_symbol_frame hist) as [[i|]|e] eqn:E; try discriminate H.
      pose proof (yf_symbol_frame_inv hist i E) as [lst [prv [Hl _]]].
      pose proof (yf_symbol_frame_fields hist i E) as [_ [_ Hv]].
      split.
      * intros Hnil. rewrite Hnil in Hl. discriminate Hl.
      * intros v Hvol. rewrite Hvol in Hv. destruct Hv as [x [Hx _]].
        apply iloc_last_inv in Hx. destruct Hx as [r ->]. now exists r, x.
    + intros [h [Heq [Hc Hv]]]. injection Heq as <-.
      assert (Hne : df_empty hist = false).
      { unfold df_empty. destruct (Close hist) as [|c t]; [now contradiction Hc|reflexivity]. }
      rewrite Hne.
      destruct (yf_symbol_frame_returns hist Hc Hv) as [info ->].
      now exists info.
Qed.



(** X7.  In a returned dictionary, without a volume column [vol] and the
    baseline [avg5_vol] are both absent.  With one, [vol] is the last
    volume truncated to an integer; the baseline is absent when the column
    has fewer than 20 cells that are not NaN, and otherwise it is the
    truncation of the mean of the cells that are not NaN among the last 20
    rows.  The truncation of a non-negative number is its integer part. *)
Theorem volume_fields_spec (hist : DataFrame) (info : Info) :
  yf_symbol_frame hist = Ok (Some info) ->
  (Volume hist = None -> vol info = None /\ avg5_vol info = None) /\
  (forall v, Volume hist = Some v ->
     exists r x,
       v = r ++ [Some x] /\ vol info = Some (trunc x) /\
       ((List.length (dropna v) < 20)%nat -> avg5_vol info = None) /\
       ((20 <= List.length (dropna v))%nat ->
        exists m, avg5_vol info = Some (trunc m) /\
                  m == Spec.arithmetic_mean (dropna (Spec.last_n 20 v)))) /\
  (forall x, 0 <= x -> inject_Z (trunc x) <= x /\ x < inject_Z (trunc x) + 1).
Proof.
  intros H.
  destruct (yf_symbol_frame_fields hist info H) as [_ [_ Hv]].
  split; [|split].
  - intros Hn. now rewrite Hn in Hv.
  - intros v Hs. rewrite Hs in Hv. destruct Hv as [x [Hx [Hvol Havg]]].
    destruct (iloc_last_inv v (Some x) Hx) as [r Hr].
    exists r, x. split; [exact Hr|]. split; [exact Hvol|]. split; intros Hlen.
    + destruct (Nat.leb_spec 20 (List.length (dropna v))); [lia|].
      now injection Havg as <-.
    + destruct (Nat.leb_spec 20 (List.length (dropna v))); [|lia].
      unfold nanmean in Havg. rewrite tail_last_n in Havg.
      destruct (dropna (Spec.last_n 20 v)) as [|y t] eqn:Ed.
      * discriminate Havg.
      * destruct (mean_some (y :: t)) as [m [Hm Hmean]]; [discriminate|].
        rewrite Hm in Havg. cbn [py_int res_bind] in Havg. injection Havg as <-.
        exists m. split; [reflexivity|exact Hmean].
  - apply trunc_nonneg.
Qed.

Lemma volume_fields_spec_witness :
  exists info,
    yf_symbol_frame busy_last_session = Ok (Some info) /\
    vol info = Some 3000%Z /\ avg5_vol info = Some 1100%Z.
Proof.
  eexists.
  match goal with
  | |- ?f = Ok (Some ?i) /\ _ =>
      assert (E : f = Ok (Some i)) by (vm_compute; reflexivity);
      destruct (volume_fields_spec busy_last_session i E) as [_ [Hv _]]
  end.
  split; [exact E|].
  destruct (Hv _ eq_refl) as [r [x [Hr [Hvol [_ Havg]]]]].
  split; [reflexivity|]. reflexivity.
Defined.

End IndicatorMore.

(* ================================================================= *)
(** ** RSI and percent change on monotone data; the index fetch *)

Section MonotoneFacts.
Local Open Scope Q_scope.

Lemma wilder_from_zero (alpha : Q) (xs : list Q) :
  Forall (fun x => x == 0) xs ->
  forall p, p == 0 -> Spec.wilder_from alpha p xs == 0.
Proof.
  induction 1 as [|x t Hx _ IH]; intros p Hp; simpl; [exact Hp|].
  apply IH. rewrite Hx, Hp. ring.
Qed.

Lemma wilder_zero (alpha : Q) (xs : list Q) :
  Forall (fun x => x == 0) xs -> Spec.wilder alpha xs == 0.
Proof.
  destruct 1 as [|x t Hx H]; simpl; [reflexivity|].
  now apply wilder_from_zero.
Qed.

Lemma wilder_from_pos (alpha : Q) (xs : list Q) :
  0 < alpha -> alpha < 1 ->
  Forall (fun x => 0 <= x) xs ->
  forall p, 0 < p -> 0 < Spec.wilder_from alpha p xs.
Proof.
  intros Ha0 Ha1. induction 1 as [|x t Hx _ IH]; intros p Hp; simpl; auto.
  apply IH.
  assert (0 <= alpha * x) by (apply Qmult_le_0_compat; lra).
  assert (0 < (1 - alpha) * p) by (apply Qmult_lt_0_compat; lra).
  lra.
Qed.

Lemma wilder_from_pos_later (alpha : Q) (xs : list Q) :
  0 < alpha -> alpha < 1 ->
  Forall (fun x => 0 <= x) xs ->
  Exists (fun x => 0 < x) xs ->
  forall p, 0 <= p -> 0 < Spec.wilder_from alpha p xs.
Proof.
  intros Ha0 Ha1 Hall Hex. induction Hex as [x t Hx|x t _ IH]; intros p Hp; simpl.
  - inversion Hall; subst. apply wilder_from_pos; auto.
    assert (0 < alpha * x) by (apply Qmult_lt_0_compat; lra).
    assert (0 <= (1 - alpha) * p) by (apply Qmult_le_0_compat; lra).
    lra.
  - inversion Hall; subst. apply IH; auto.
    assert (0 <= alpha * x) by (apply Qmult_le_0_compat; lra).
    assert (0 <= (1 - alpha) * p) by (apply Qmult_le_0_compat; lra).
    lra.
Qed.

Lemma wilder_pos (alpha : Q) (xs : list Q) :
  0 < alpha -> alpha < 1 ->
  Forall (fun x => 0 <= x) xs ->
  Exists (fun x => 0 < x) xs ->
  0 < Spec.wilder alpha xs.
Proof.
  intros Ha0 Ha1 Hall Hex. destruct xs as [|x t]; [inversion Hex|].
  simpl. inversion Hall; subst.
  inversion Hex; subst.
  - apply wilder_from_pos; auto.
  - apply wilder_from_pos_later; auto.
Qed.

(** X8.  With 15 closes or more, the RSI is exactly 100 when no close is
    below the one before it (a flat series included), and it is 0 when no
    close is above the one before it and some close is below it. *)
Theorem rsi_monotone (close : list Q) :
  (15 <= List.length close)%nat ->
  (Forall (fun d => 0 <= d) (diff close) -> rsi_of close = Ok (Some 100)) /\
  (Forall (fun d => d <= 0) (diff close) ->
   Exists (fun d => d < 0) (diff close) ->
   exists r, rsi_of close = Ok (Some r) /\ r == 0).
Proof.
  intros Hlen.
  destruct (roll_last close Hlen) as [up [d [Hup [Hd [Hupeq Hdeq]]]]].
  split.
  - intros Hmono. unfold rsi_of.
    destruct (Nat.leb_spec 15 (List.length close)); [|lia].
    rewrite Hd. cbn [res_bind].
    assert (Hz : d == 0).
    { rewrite Hdeq. apply wilder_zero. unfold Spec.losses.
      apply Forall_forall. intros x Hin. apply in_map_iff in Hin.
      destruct Hin as [y [<- Hy]].
      rewrite Forall_forall in Hmono. apply Hmono in Hy.
      apply Qle_bool_iff in Hy. now rewrite Hy. }
    apply nonzero_false in Hz. now rewrite Hz.
  - intros Hmono Hdrop. unfold rsi_of.
    destruct (Nat.leb_spec 15 (List.length close)); [|lia].
    rewrite Hd. cbn [res_bind].
    assert (Hpos : 0 < d).
    { rewrite Hdeq. apply wilder_pos; [lra|lra|apply losses_nonneg|].
      unfold Spec.losses. apply Exists_exists in Hdrop.
      destruct Hdrop as [y [Hy Hneg]].
      apply Exists_exists. exists (if Qle_bool 0 y then 0 else - y). split.
      - apply in_map_iff. now exists y.
      - qle_cases 0 y H0; lra. }
    assert (Hnz : nonzero d = true) by (apply nonzero_true; lra).
    rewrite Hnz, Hup. cbn [res_bind].
    eexists. split; [reflexivity|].
    assert (Hup0 : up == 0).
    { rewrite Hupeq. apply wilder_zero. unfold Spec.gains.
      apply Forall_forall. intros x Hin. apply in_map_iff in Hin.
      destruct Hin as [y [<- Hy]].
      rewrite Forall_forall in Hmono. apply Hmono in Hy.
      qle_cases 0 y H0; [lra|reflexivity]. }
    assert (Hq : up / d == 0) by (rewrite Hup0; unfold Qdiv; ring).
    rewrite Hq. reflexivity.
Qed.

Lemma rsi_monotone_witness :
  rsi_of rising_15 = Ok (Some 100) /\
  (exists r, rsi_of falling_15 = Ok (Some r) /\ r == 0).
Proof.
  split.
  - apply (rsi_monotone rising_15); [vm_compute; lia|].
    vm_compute. repeat (constructor; [discriminate|]). constructor.
  - apply (rsi_monotone falling_15); [vm_compute; lia| |].
    + vm_compute. repeat (constructor; [discriminate|]). constructor.
    + vm_compute. constructor. reflexivity.
Defined.

Lemma pct_of_closes (hist : DataFrame) (info : Info) (l : list Q) (prev last : Q) :
  yf_symbol_frame hist = Ok (Some info) ->
  dropna (Close hist) = l ++ [prev; last] ->
  pct info = pct_change last prev.
Proof.
  intros H Hclose.
  destruct (yf_symbol_frame_inv _ _ H) as [lst [prv [Hlast [Hprev [_ [Hpct _]]]]]].
  rewrite Hclose in Hlast, Hprev.
  replace (l ++ [prev; last]) with ((l ++ [prev]) ++ [last]) in Hlast
    by (rewrite <- app_assoc; reflexivity).
  rewrite iloc_last_app in Hlast. injection Hlast as <-.
  rewrite length_app in Hprev. simpl List.length in Hprev.
  destruct (Nat.leb_spec 2 (List.length l + 2)); [|lia].
  rewrite iloc_prev_app in Hprev. injection Hprev as <-.
  exact Hpct.
Qed.

Lemma pct_change_up (last prev : Q) : 0 < prev -> prev < last -> 0 < pct_change last prev.
Proof.
  intros Hp Hl. rewrite pct_change_formula by lra.
  assert (1 < last / prev) by (apply Qlt_shift_div_l; lra). lra.
Qed.

Lemma pct_change_down (last prev : Q) : 0 < prev -> last < prev -> pct_change last prev < 0.
Proof.
  intros Hp Hl. rewrite pct_change_formula by lra.
  assert (last / prev < 1) by (apply Qlt_shift_div_r; lra). lra.
Qed.

Lemma pct_change_flat (last prev : Q) : 0 < prev -> last == prev -> pct_change last prev == 0.
Proof.
  intros Hp Hl. rewrite pct_change_formula by lra.
  rewrite Hl. field. lra.
Qed.

(** X9.  For a positive previous close, the percent change of a returned
    dictionary is positive exactly when the last close is above the
    previous one, negative exactly when it is below, and 0 exactly when
    the two are equal. *)
Theorem percent_change_sign (hist : DataFrame) (info : Info)
        (l : list Q) (prev last : Q) :
  yf_symbol_frame hist = Ok (Some info) ->
  dropna (Close hist) = l ++ [prev; last] ->
  0 < prev ->
  (0 < pct info <-> prev < last) /\
  (pct info < 0 <-> last < prev) /\
  (pct info == 0 <-> last == prev).
Proof.
  intros H Hclose Hp. rewrite (pct_of_closes hist info l prev last H Hclose).
  pose proof (pct_change_up last prev Hp) as Hup.
  pose proof (pct_change_down last prev Hp) as Hdown.
  pose proof (pct_change_flat last prev Hp) as Hflat.
  destruct (Q_dec prev last) as [[Hlt|Hgt]|Heq].
  - specialize (Hup Hlt). repeat split; intros; lra.
  - specialize (Hdown Hgt). repeat split; intros; lra.
  - symmetry in Heq. specialize (Hflat Heq). repeat split; intros; lra.
Qed.

Lemma percent_change_sign_witness :
  exists info,
    yf_symbol_frame (frame_of [100; 97] None) = Ok (Some info) /\ pct info < 0.
Proof.
  eexists.
  match goal with
  | |- ?f = Ok (Some ?i) /\ _ =>
      assert (E : f = Ok (Some i)) by (vm_compute; reflexivity);
      destruct (percent_change_sign (frame_of [100; 97] None) i [] 100 97 E eq_refl)
        as [_ [Hneg _]]
  end.
  - reflexivity.
  - split; [exact E|]. apply Hneg. reflexivity.
Defined.

End MonotoneFacts.

Section IndexFetch.
Local Open Scope Q_scope.
Variable env : Env.


End IndexFetch.

(* ================================================================= *)
(** ** [build_report] and [main]: failure, layout, optional provider *)

Section BuildMore.
Context {F : FloatFmt}.
Variable env : Env.

(** The index is the one of vnstock when it gave one; otherwise it is the
    one of yfinance, which is absent or has a percent change. *)
Lemma index_info_value (l : Log) :
  match fst (vn_index_info env l) with
  | Some i => fst (index_info env l) = Some i
  | None => fst (index_info env l) = None \/
            exists i p, fst (index_info env l) = Some i /\ idx_pct i = Some p
  end.
Proof.
  unfold index_info, bind.
  destruct (vn_index_info env l) as [[i|] l1]; cbn [fst].
  - reflexivity.
  - apply yf_get_index_shape.
Qed.

(** X11.  [build_report] raises exactly when vnstock supplied the index
    without a percent change, and what it raises is the TypeError of the
    format; it then has made no call to the price provider and has printed
    debug lines only. *)
Theorem build_report_raises_exactly (l0 : Log) (e : exn) :
  (fst (build_report env l0) = Raise e <->
   e = TypeError_format /\
   exists i, fst (vn_index_info env l0) = Some i /\ idx_pct i = None) /\
  (fst (build_report env l0) = Raise e ->
   exists d, snd (build_report env l0) = l0 ++ d /\
             history_calls d = [] /\ Forall quiet d).
Proof.
  pose proof (index_info_value l0) as Hv.
  split.
  - split.
    + intros H.
      destruct (index_line (fst (index_info env l0))) as [il|e'] eqn:E.
      * destruct (build_report_returns env l0 il E) as [fl [dt [al [d [Hb _]]]]].
        rewrite Hb in H. discriminate H.
      * rewrite (build_report_raises env l0 e' E) in H. injection H as <-.
        destruct (fst (vn_index_info env l0)) as [i|].
        -- rewrite Hv in E. unfold index_line in E.
           destruct (idx_pct i) as [p|] eqn:Ep; [discriminate E|].
           injection E as <-. split; [reflexivity|]. now exists i.
        -- destruct Hv as [Hn|[i [p [Hs Hp]]]].
           ++ rewrite Hn in E. discriminate E.
           ++ rewrite Hs in E. unfold index_line in E. rewrite Hp in E. discriminate E.
    + intros [-> [i [Hi Hp]]]. rewrite Hi in Hv.
      assert (E : index_line (fst (index_info env l0)) = Raise TypeError_format)
        by (rewrite Hv; unfold index_line; now rewrite Hp).
      now rewrite (build_report_raises env l0 _ E).
  - intros H.
    destruct (index_line (fst (index_info env l0))) as [il|e'] eqn:E.
    + destruct (build_report_returns env l0 il E) as [fl [dt [al [d [Hb _]]]]].
      rewrite Hb in H. discriminate H.
    + rewrite (build_report_raises env l0 e' E). cbn [snd].
      destruct (index_info_spec env l0) as [d [Hd [Hq Hc]]].
      exists d. split; [exact Hd|]. split; [|exact Hq].
      rewrite Hc.
      destruct (fst (vn_index_info env l0)) as [i|]; [reflexivity|].
      exfalso. destruct Hv as [Hn|[i [p [Hs Hp]]]].
      * rewrite Hn in E. discriminate E.
      * rewrite Hs in E. unfold index_line in E. rewrite Hp in E. discriminate E.
Qed.

(** X12.  When [build_report] raises, [main] prints the fatal-error line
    with the text of the exception and the traceback, and ends normally:
    the report is not printed, nothing is posted and no price is
    fetched. *)
Theorem main_on_build_failure (fuel : nat) (l0 : Log) (e : exn) :
  fst (build_report env l0) = Raise e ->
  exists d,
    main env fuel l0 =
      (Some tt, l0 ++ d ++ [Print (u "Fatal error: " ++ exn_str e); PrintExc]) /\
    Forall quiet d /\
    history_calls d = [] /\
    posts (d ++ [Print (u "Fatal error: " ++ exn_str e); PrintExc]) = 0%nat.
Proof.
  intros H.
  destruct (index_line (fst (index_info env l0))) as [il|e'] eqn:E.
  - destruct (build_report_returns env l0 il E) as [fl [dt [al [d [Hb _]]]]].
    rewrite Hb in H. discriminate H.
  - pose proof (build_report_raises env l0 e' E) as Hb.
    rewrite Hb in H. injection H as <-.
    destruct (index_info_spec env l0) as [d [Hd [Hq Hc]]].
    exists d. split; [|split; [exact Hq|split]].
    + unfold main, bind. rewrite Hb, Hd.
      unfold print, emit, ret. now rewrite <- !app_assoc.
    + rewrite Hc. pose proof (index_info_value l0) as Hv.
      destruct (fst (vn_index_info env l0)) as [i|]; [reflexivity|].
      exfalso. destruct Hv as [Hn|[i [p [Hs Hp]]]].
      * rewrite Hn in E. discriminate E.
      * rewrite Hs in E. unfold index_line in E. rewrite Hp in E. discriminate E.
    + unfold posts. rewrite filter_app, length_app.
      fold (posts d). rewrite (quiet_no_post d Hq). reflexivity.
Qed.

End BuildMore.

Lemma build_report_raises_exactly_witness :
  fst (build_report (F := Decimal.decimal_fmt) (env_vnstock_index None) [])
    = Raise TypeError_format /\
  snd (build_report (F := Decimal.decimal_fmt) (env_vnstock_index None) [])
    = [VnIndex (u "index")] /\
  exists report,
    fst (build_report (F := Decimal.decimal_fmt) (env_vnstock_index (Some (1 # 2))) [])
      = Ok report.
Proof.
  destruct (@build_report_raises_exactly Decimal.decimal_fmt (env_vnstock_index None) []
              TypeError_format) as [[_ Hiff] _].
  split; [|split].
  - apply Hiff. split; [reflexivity|]. eexists. split; vm_compute; reflexivity.
  - vm_compute. reflexivity.
  - eexists. vm_compute. reflexivity.
Defined.

Lemma main_on_build_failure_witness :
  exists d,
    main (F := Decimal.decimal_fmt) (env_vnstock_index None) 10 [] =
      (Some tt,
       [] ++ d ++ [Print (u "Fatal error: " ++ exn_str TypeError_format); PrintExc]) /\
    history_calls d = [].
Proof.
  assert (H : fst (build_report (F := Decimal.decimal_fmt) (env_vnstock_index None) [])
              = Raise TypeError_format) by (vm_compute; reflexivity).
  destruct (@main_on_build_failure Decimal.decimal_fmt (env_vnstock_index None) 10 []
              TypeError_format H) as [d [Hm [_ [Hc _]]]].
  exists d. split; [exact Hm|exact Hc].
Defined.

Section AppendsFacts.

Lemma Appends_ret {A} (P : Event -> Prop) (a : A) : Appends P (ret a).
Proof. intros l. exists []. simpl. rewrite app_nil_r. auto. Qed.

Lemma Appends_bind {A B} (P : Event -> Prop) (c : M A) (k : A -> M B) :
  Appends P c -> (forall a, Appends P (k a)) -> Appends P (bind c k).
Proof.
  intros Hc Hk l. unfold bind.
  destruct (Hc l) as [d1 [H1 Q1]].
  destruct (c l) as [a l1]. simpl in H1. subst l1.
  destruct (Hk a (l ++ d1)) as [d2 [H2 Q2]].
  exists (d1 ++ d2). rewrite H2, app_assoc.
  split; [reflexivity|]. now apply Forall_app.
Qed.

Lemma Appends_emit (P : Event -> Prop) (e : Event) : P e -> Appends P (emit e).
Proof.
  intros He l. exists [e]. split; [reflexivity|]. constructor; [exact He|constructor].
Qed.

End AppendsFacts.

Section LayoutFacts.
Context {F : FloatFmt}.
Variable env : Env.





Hypothesis vnstock_off : vns env && USE_VNSTOCK env = false.

Lemma Appends_dbg_no_vn (msg : str) : Appends no_vn (dbg msg).
Proof. apply Appends_emit. reflexivity. Qed.

Lemma yf_get_symbol_no_vn (s : str) : Appends no_vn (yf_get_symbol env s).
Proof.
  unfold yf_get_symbol. apply Appends_bind.
  - intros l. exists [YfHistory (s ++ u ".VN") (u "60d")].
    split; [reflexivity|]. constructor; [reflexivity|constructor].
  - intros h.
    destruct (match h with
              | HistRaises e => Raise e
              | HistNone => Ok None
              | HistFrame hist => if df_empty hist then Ok None else yf_symbol_frame hist
              end) as [r|e]; [apply Appends_ret|].
    apply Appends_bind; [apply Appends_dbg_no_vn|]. intros _. apply Appends_ret.
Qed.

Lemma yf_get_index_no_vn (t : str) : Appends no_vn (yf_get_index env t).
Proof.
  unfold yf_get_index. apply Appends_bind.
  - intros l. exists [YfHistory t (u "120d")].
    split; [reflexivity|]. constructor; [reflexivity|constructor].
  - intros h.
    destruct (match h with
              | HistRaises e => Raise e
              | HistNone => Ok None
              | HistFrame hist => if df_empty hist then Ok None else yf_index_frame hist
              end) as [r|e]; [apply Appends_ret|].
    apply Appends_bind; [apply Appends_dbg_no_vn|]. intros _. apply Appends_ret.
Qed.

Lemma foreign_market_line_off (l : Log) :
  foreign_market_line env l = (u "🔁 Khối ngoại (toàn TT): —", l).
Proof.
  unfold foreign_market_line. rewrite vnstock_off. reflexivity.
Qed.

Lemma symbol_flows_off (s : str) (l : Log) :
  symbol_flows env s l = ((None, None), l).
Proof.
  unfold symbol_flows. rewrite vnstock_off. reflexivity.
Qed.

Lemma detail_for_off (s : str) (l : Log) :
  fst (detail_for env s l) = placeholder_line s \/
  exists info, fst (detail_for env s l) = detail_line s info None None.
Proof.
  unfold detail_for, bind.
  destruct (yf_get_symbol env s l) as [[info|] l1]; rewrite symbol_flows_off;
    cbn [fst snd ret]; eauto.
Qed.

Lemma detail_for_no_vn (s : str) : Appends no_vn (detail_for env s).
Proof.
  unfold detail_for. apply Appends_bind; [apply yf_get_symbol_no_vn|].
  intros info. apply Appends_bind.
  - intros l. exists []. rewrite symbol_flows_off, app_nil_r. auto.
  - intros flows. destruct info; apply Appends_ret.
Qed.

Lemma detail_loop_no_vn (symbols : list str) :
  forall lines, Appends no_vn (detail_loop env symbols lines).
Proof.
  induction symbols as [|s rest IH]; intros lines; cbn [detail_loop].
  - apply Appends_ret.
  - apply Appends_bind; [apply detail_for_no_vn|]. intros line. apply IH.
Qed.

Lemma alert_loop_no_vn (symbols : list str) :
  forall alerts, Appends no_vn (alert_loop env symbols alerts).
Proof.
  induction symbols as [|s rest IH]; intros alerts; cbn [alert_loop].
  - apply Appends_ret.
  - apply Appends_bind; [|intros new; apply IH].
    unfold alerts_for. apply Appends_bind; [apply yf_get_symbol_no_vn|].
    intros info. destruct info; apply Appends_ret.
Qed.

Lemma build_report_no_vn : Appends no_vn (build_report env).
Proof.
  unfold build_report. apply Appends_bind.
  - unfold index_info, vn_index_info. rewrite vnstock_off.
    apply Appends_bind; [apply Appends_ret|].
    intros [i|]; [apply Appends_ret|apply yf_get_index_no_vn].
  - intros idx. destruct (index_line idx) as [il|e]; [|apply Appends_ret].
    apply Appends_bind.
    + intros l. exists []. rewrite foreign_market_line_off, app_nil_r. auto.
    + intros fl. apply Appends_bind; [apply detail_loop_no_vn|].
      intros lines. apply Appends_bind; [apply alert_loop_no_vn|].
      intros alerts. apply Appends_ret.
Qed.

(** X13.  When vnstock is not loaded or not enabled, [build_report] always
    returns a report and never calls vnstock; the foreign-flow line is the
    placeholder, and every detail line is the placeholder of its symbol or
    its detail line with both foreign totals absent. *)
Theorem vnstock_off_spec (l0 : Log) :
  (exists report d,
      build_report env l0 = (Ok report, l0 ++ d) /\
      Forall (fun e => is_vnstock e = false) d) /\
  (forall l, foreign_market_line env l = (u "🔁 Khối ngoại (toàn TT): —", l)) /\
  (forall s l,
      fst (detail_for env s l) = placeholder_line s \/
      exists info, fst (detail_for env s l) = detail_line s info None None).
Proof.
  split; [|split].
  - destruct (index_line_without_vnstock env l0 vnstock_off) as [il Hil].
    destruct (build_report_returns env l0 il Hil) as [fl [dt [al [d [Hb _]]]]].
    destruct (build_report_no_vn l0) as [d' [Hd' Hq]].
    rewrite Hb in Hd'. cbn [snd] in Hd'. apply app_inv_head in Hd'. subst d'.
    eexists _, d. split; [exact Hb|exact Hq].
  - apply foreign_market_line_off.
  - apply detail_for_off.
Qed.

End LayoutFacts.


Lemma vnstock_off_spec_witness :
  exists report d,
    build_report (F := Decimal.decimal_fmt) env_default [] = (Ok report, [] ++ d) /\
    Forall (fun e => is_vnstock e = false) d.
Proof.
  exact (proj1 (@vnstock_off_spec Decimal.decimal_fmt env_default eq_refl [])).
Defined.

(* ================================================================= *)
(** ** Sending *)

Section SendFacts.
Variable env : Env.

Lemma post_loop_spec (url : str) (parts : list str) :
  forall ok l, exists replies groups,
    Forall2 (fun part r => exists l', r = requests_post env l' url (CHAT_ID env) part)
            parts replies /\
    Forall2 (fun part g =>
               exists msg, g = [HttpPost url (CHAT_ID env) part;
                                Print (u "[DEBUG] " ++ msg)])
            parts groups /\
    post_loop env url parts ok l = (ok && forallb is_200 replies, l ++ List.concat groups).
Proof.
  induction parts as [|part rest IH]; intros ok l.
  - exists [], []. cbn [post_loop forallb List.concat]. unfold ret.
    rewrite andb_true_r, app_nil_r. repeat constructor.
  - cbn [post_loop]. unfold bind, call_post.
    destruct (requests_post env l url (CHAT_ID env) part) as [e|code body] eqn:E.
    + unfold dbg, print, emit.
      match goal with
      | |- context [post_loop env url rest ?b ?l'] =>
          destruct (IH b l') as [replies [groups [Hr [Hg Hp]]]]
      end.
      exists (PostRaises e :: replies),
        ([HttpPost url (CHAT_ID env) part;
          Print (u "[DEBUG] " ++ u "Telegram send error: " ++ exn_str e)] :: groups).
      split; [constructor; [exists l; now rewrite E|exact Hr]|].
      split; [constructor; [eexists; reflexivity|exact Hg]|].
      rewrite Hp. cbn [forallb is_200 List.concat andb app].
      rewrite andb_false_r, <- !app_assoc. reflexivity.
    + unfold dbg, print, emit.
      match goal with
      | |- context [post_loop env url rest ?b ?l'] =>
          destruct (IH b l') as [replies [groups [Hr [Hg Hp]]]]
      end.
      exists (PostStatus code body :: replies),
        ([HttpPost url (CHAT_ID env) part;
          Print (u "[DEBUG] " ++ u "Telegram response " ++ Decimal.str_of_Z code
                   ++ u ": " ++ firstn 200 body)] :: groups).
      split; [constructor; [exists l; now rewrite E|exact Hr]|].
      split; [constructor; [eexists; reflexivity|exact Hg]|].
      rewrite Hp. cbn [forallb is_200 List.concat app].
      rewrite <- !app_assoc. cbn [app].
      destruct (code =? 200)%Z, ok; reflexivity.
Qed.

Lemma posted_groups (url : str) (parts : list str) (groups : list Log) :
  Forall2 (fun part g =>
             exists msg, g = [HttpPost url (CHAT_ID env) part;
                              Print (u "[DEBUG] " ++ msg)])
          parts groups ->
  posted (List.concat groups) = map (fun part => (url, CHAT_ID env, part)) parts.
Proof.
  induction 1 as [|part g rest groups [msg ->] _ IH]; [reflexivity|].
  cbn [List.concat app posted map]. now rewrite IH.
Qed.

Hypothesis credentials :
  negb (truthy (BOT_TOKEN env)) || negb (truthy (CHAT_ID env)) = false.

Lemma send_to_telegram_run (fuel : nat) (text : str) (parts : list str) (l : Log) :
  chunk_text fuel (Some text) 3500 = Some parts ->
  exists replies groups,
    Forall2 (reply_to env) parts replies /\
    Forall2 (post_group env) parts groups /\
    send_to_telegram env fuel text l =
      (Some (forallb is_200 replies),
       l ++ Print (u "[DEBUG] " ++ u "Sending to Telegram CHAT_ID=" ++ CHAT_ID env
                     ++ u ", token=***" ++ tail 6 (BOT_TOKEN env))
         :: List.concat groups).
Proof.
  intros Hc. unfold send_to_telegram. rewrite credentials, Hc.
  unfold bind, dbg, print, emit.
  match goal with
  | |- context [post_loop env ?b parts true ?l'] =>
      destruct (post_loop_spec b parts true l') as [replies [groups [Hr [Hg Hp]]]];
      rewrite Hp
  end.
  exists replies, groups. split; [exact Hr|]. split; [exact Hg|].
  unfold ret. cbn [andb]. rewrite <- app_assoc. reflexivity.
Qed.

Lemma chunk_text_diverges (limit : nat) (s : str) :
  (exists k, stuck limit (skipn k s)) ->
  forall fuel, chunk_text fuel (Some s) limit = None.
Proof.
  intros [k Hst] fuel.
  assert (Hlen : (limit < len s)%nat).
  { destruct Hst as [Hl _]. unfold len in *. rewrite length_skipn in Hl. lia. }
  unfold chunk_text. rewrite truthy_or_empty.
  destruct (Nat.leb_spec (len s) limit); [lia|].
  rewrite <- (firstn_skipn k s) at 1.
  now rewrite (chunk_loop_stuck_suffix limit (skipn k s) Hst).
Qed.

(** X15.  With both credentials set, when [chunk_text] returns,
    [send_to_telegram] prints one debug line, then posts every chunk once
    to the sendMessage address of the token with the configured chat id,
    in order, each POST followed by one debug line and by the POST of the
    next chunk whatever its answer was; the posted texts are at most 3500
    characters each and put end to end they are the text; nothing but
    debug lines is printed. *)
Theorem send_to_telegram_posts (fuel : nat) (text : str) (parts : list str) (l : Log) :
  chunk_text fuel (Some text) 3500 = Some parts ->
  exists ok groups,
    send_to_telegram env fuel text l =
      (Some ok,
       l ++ Print (u "[DEBUG] " ++ u "Sending to Telegram CHAT_ID=" ++ CHAT_ID env
                     ++ u ", token=***" ++ tail 6 (BOT_TOKEN env))
         :: List.concat groups) /\
    Forall2 (post_group env) parts groups /\
    posted (List.concat groups) = map (fun part => (base_url env, CHAT_ID env, part)) parts /\
    List.concat (map snd (posted (List.concat groups))) = text /\
    Forall (fun p => (len (snd p) <= 3500)%nat) (posted (List.concat groups)).
Proof.
  intros Hc.
  destruct (send_to_telegram_run fuel text parts l Hc) as [replies [groups [_ [Hg Hs]]]].
  exists (forallb is_200 replies), groups.
  pose proof (posted_groups (base_url env) parts groups Hg) as Hp.
  pose proof (chunk_text_chunked 3500 fuel text parts Hc) as Hch.
  split; [exact Hs|]. split; [exact Hg|]. split; [exact Hp|].
  rewrite Hp, map_map. cbn [snd]. rewrite map_id.
  split; [now apply (Chunked_concat 3500)|].
  apply Forall_map. cbn [snd]. now apply (Chunked_sizes 3500 text).
Qed.

(** X16.  With both credentials set, when [chunk_text] returns,
    [send_to_telegram] returns true exactly when every chunk's POST was
    answered with status 200: an answer with another status and an
    exception of the POST both make it false. *)
Theorem send_to_telegram_result (fuel : nat) (text : str) (parts : list str) (l : Log) :
  chunk_text fuel (Some text) 3500 = Some parts ->
  exists replies,
    Forall2 (reply_to env) parts replies /\
    fst (send_to_telegram env fuel text l) = Some (forallb is_200 replies).
Proof.
  intros Hc.
  destruct (send_to_telegram_run fuel text parts l Hc) as [replies [groups [Hr [_ Hs]]]].
  exists replies. split; [exact Hr|]. now rewrite Hs.
Qed.

(** X17.  With both credentials set, on a text with a suffix longer than
    3500 characters whose only newline among its first 3500 characters is
    its first one, [send_to_telegram] prints its first debug line and
    returns for no number of iterations of the loop of [chunk_text]:
    nothing is posted, not even the chunks before that suffix. *)
Theorem send_to_telegram_never_posts (text : str) (l : Log) :
  (exists k, stuck 3500 (skipn k text)) ->
  forall fuel,
    send_to_telegram env fuel text l =
      (None,
       l ++ [Print (u "[DEBUG] " ++ u "Sending to Telegram CHAT_ID=" ++ CHAT_ID env
                      ++ u ", token=***" ++ tail 6 (BOT_TOKEN env))]).
Proof.
  intros Hst fuel. unfold send_to_telegram.
  rewrite credentials, (chunk_text_diverges 3500 text Hst fuel).
  unfold bind, dbg, print, emit, ret. reflexivity.
Qed.

End SendFacts.

Lemma send_to_telegram_posts_witness :
  exists ok groups,
    send_to_telegram (env_credentials 200) 5 many_lines [] =
      (Some ok,
       [] ++ Print (u "[DEBUG] " ++ u "Sending to Telegram CHAT_ID=" ++ u "42"
                      ++ u ", token=***" ++ u "ABCDEF")
          :: List.concat groups) /\
    List.length groups = 2%nat /\
    List.concat (map snd (posted (List.concat groups))) = many_lines.
Proof.
  assert (Hc : chunk_text 5 (Some many_lines) 3500 =
               Some [firstn 3497 many_lines; skipn 3497 many_lines])
    by (vm_compute; reflexivity).
  destruct (send_to_telegram_posts (env_credentials 200) eq_refl 5 many_lines _ [] Hc)
    as [ok [groups [Hs [Hg [_ [Ht _]]]]]].
  exists ok, groups. split; [exact Hs|]. split; [|exact Ht].
  symmetry. exact (Forall2_length Hg).
Defined.

Lemma send_to_telegram_result_witness :
  fst (send_to_telegram (env_credentials 200) 5 many_lines []) = Some true /\
  fst (send_to_telegram env_picky 5 many_lines []) = Some false.
Proof.
  assert (Hc : chunk_text 5 (Some many_lines) 3500 =
               Some [firstn 3497 many_lines; skipn 3497 many_lines])
    by (vm_compute; reflexivity).
  split.
  - destruct (send_to_telegram_result (env_credentials 200) eq_refl 5 many_lines _ [] Hc)
      as [replies [Hr Hs]].
    rewrite Hs. f_equal.
    inversion Hr as [|p1 r1 ps1 rs1 [l1 ->] Hr1]; subst.
    inversion Hr1 as [|p2 r2 ps2 rs2 [l2 ->] Hr2]; subst.
    inversion Hr2; subst. reflexivity.
  - destruct (send_to_telegram_result env_picky eq_refl 5 many_lines _ [] Hc)
      as [replies [Hr Hs]].
    rewrite Hs. f_equal.
    inversion Hr as [|p1 r1 ps1 rs1 [l1 ->] Hr1]; subst.
    inversion Hr1 as [|p2 r2 ps2 rs2 [l2 ->] Hr2]; subst.
    inversion Hr2; subst. vm_compute. reflexivity.
Defined.

Lemma send_to_telegram_never_posts_witness :
  send_to_telegram (env_credentials 200) 4000 leading_newline_text [] =
    (None,
     [] ++ [Print (u "[DEBUG] " ++ u "Sending to Telegram CHAT_ID=" ++ u "42"
                     ++ u ", token=***" ++ u "ABCDEF")]).
Proof.
  apply (send_to_telegram_never_posts (env_credentials 200) eq_refl).
  exists 0%nat. split; [vm_compute; lia|vm_compute; reflexivity].
Defined.

Section MainSend.
Context {F : FloatFmt}.
Variable env : Env.

Lemma post_groups_prints (parts : list str) (groups : list Log) (c : char) (t : str) :
  Forall2 (post_group env) parts groups ->
  c <> 91%N ->
  occurrences (Print (c :: t)) (List.concat groups) = 0%nat /\
  ~ In PrintExc (List.concat groups).
Proof.
  intros Hg Hc.
  induction Hg as [|part g rest groups [msg ->] _ [IH1 IH2]].
  - split; [reflexivity|intros []].
  - cbn [List.concat app]. split.
    + rewrite occurrences_cons_neq by discriminate.
      rewrite occurrences_cons_neq; [exact IH1|].
      intros H. injection H as H. apply Hc. symmetry.
      change (u "[DEBUG] " ++ msg) with (91%N :: List.tl (u "[DEBUG] ") ++ msg) in H.
      congruence.
    + intros [H|[H|H]]; [discriminate H|discriminate H|exact (IH2 H)].
Qed.

(** X18.  With both credentials set, once the report is built and
    [chunk_text] returns on it, [main] prints the preview title and the
    report, sends it and ends normally: every chunk of the report is
    posted once, in order; [send_to_telegram] does not print the report a
    second time and no traceback is printed; and the last line is the
    debug line that says the report was sent exactly when every POST was
    answered with status 200, and that it was not sent otherwise. *)
Theorem main_with_credentials (fuel : nat) (l0 l1 : Log) (report : str)
        (parts : list str) :
  negb (truthy (BOT_TOKEN env)) || negb (truthy (CHAT_ID env)) = false ->
  build_report env l0 = (Ok report, l1) ->
  chunk_text fuel (Some report) 3500 = Some parts ->
  exists replies sent,
    Forall2 (reply_to env) parts replies /\
    main env fuel l0 =
      (Some tt,
       l1 ++ Print (u "=== Report preview ===") :: Print report :: sent
          ++ [Print (u "[DEBUG] " ++
                       if forallb is_200 replies
                       then u "Report sent/attempted."
                       else u "Report not sent.")]) /\
    posted sent = map (fun part => (base_url env, CHAT_ID env, part)) parts /\
    occurrences (Print report) sent = 0%nat /\
    ~ In PrintExc sent.
Proof.
  intros Hcr Hb Hc.
  destruct (report_head env l0 l1 report Hb) as [t Ht].
  unfold main, bind. rewrite Hb. unfold print at 1 2, emit.
  match goal with
  | |- context [send_to_telegram env fuel report ?l'] =>
      destruct (send_to_telegram_run env Hcr fuel report parts l' Hc)
        as [replies [groups [Hr [Hg Hs]]]];
      rewrite Hs
  end.
  destruct (post_groups_prints parts groups 128202%N t Hg ltac:(discriminate))
    as [Hocc Hexc].
  exists replies,
    (Print (u "[DEBUG] " ++ u "Sending to Telegram CHAT_ID=" ++ CHAT_ID env
              ++ u ", token=***" ++ tail 6 (BOT_TOKEN env))
       :: List.concat groups).
  split; [exact Hr|]. split; [|split; [|split]].
  - destruct (forallb is_200 replies); unfold dbg, print, emit, ret;
      rewrite <- !app_assoc; reflexivity.
  - cbn [posted]. now apply posted_groups.
  - rewrite Ht at 1. rewrite occurrences_cons_neq by discriminate.
    rewrite <- Ht. rewrite Ht at 1. exact Hocc.
  - intros [H|H]; [discriminate H|exact (Hexc H)].
Qed.

End MainSend.

Lemma main_with_credentials_witness :
  exists report replies sent,
    Forall2 (reply_to (env_credentials 200)) [report] replies /\
    main (F := Decimal.decimal_fmt) (env_credentials 200) 0 [] =
      (Some tt,
       snd (build_report (F := Decimal.decimal_fmt) (env_credentials 200) [])
         ++ Print (u "=== Report preview ===") :: Print report :: sent
         ++ [Print (u "[DEBUG] " ++
                      if forallb is_200 replies
                      then u "Report sent/attempted."
                      else u "Report not sent.")]) /\
    posted sent = [(base_url (env_credentials 200), u "42", report)].
Proof.
  assert (E : exists report l1,
             build_report (F := Decimal.decimal_fmt) (env_credentials 200) []
             = (Ok report, l1) /\
             chunk_text 0 (Some report) 3500 = Some [report])
    by (eexists _, _; split; vm_compute; reflexivity).
  destruct E as [report [l1 [Hb Hc]]].
  destruct (@main_with_credentials Decimal.decimal_fmt (env_credentials 200) 0 [] l1
              report [report] eq_refl Hb Hc)
    as [replies [sent [Hr [Hm [Hp _]]]]].
  exists report, replies, sent.
  split; [exact Hr|]. split; [|exact Hp].
  rewrite Hm, Hb. reflexivity.
Defined.
